(** * Keyrings: loading, indexing and secret-key retrieval (libkb/keyring.go)

    A shallow embedding of [libkb/keyring.go].  Go pointers are modelled by
    value, a nullable pointer [*T] as [option T] ([None] is [nil]); Go maps
    as stdpp's [gmap] (reading a [nil] map behaves like reading an empty
    one); a Go [error] value as [option error] ([None] is [nil]).  Calls
    that leave the file (the operating system, the OpenPGP library, the
    user and key-family objects, the per-user secret keyring) are fields
    of collaborator records, and every call to one of them, as well as
    every access to the lock-protected map, is recorded in a trace of
    [Event]s in program order.  Logging is not modelled, nor are
    [WriteTo], [Save], [GetSecretKey] and [EmptyKeyRing], which none of
    the properties below is about. *)

From Stdlib Require Import ZArith List String Ascii Bool Lia.
From stdpp Require Import base option list gmap strings fin_maps.

Local Open Scope string_scope.
Local Open Scope list_scope.

(** ** Errors *)

(** The error values the file creates itself, and the two kinds of foreign
    error it distinguishes with [os.IsNotExist]. *)
Inductive error : Type :=
| NoUsernameError
| NoSecretKeyError
| NoKeyringsError
| ErrNotExist (path : string)
| ErrOther (msg : string).

(** [os.IsNotExist(err)]; it is [false] on the [nil] error. *)
Definition os_IsNotExist (err : option error) : bool :=
  match err with
  | Some (ErrNotExist _) => true
  | _ => false
  end.

(** [p != nil] *)
Definition not_nil {A : Type} (p : option A) : bool :=
  match p with
  | Some _ => true
  | None => false
  end.

(** ** Events *)

Inductive Event : Type :=
| EvLock                          (* k.Lock() *)
| EvUnlock                        (* deferred k.Unlock() *)
| EvMapRead (un : string)         (* k.skbMap[un] *)
| EvMapWrite (un : string)        (* k.skbMap[un] = f *)
| EvOpen (path : string)          (* os.Open(path) *)
| EvReadKeyRing (path : string)   (* openpgp.ReadKeyRing(file) *)
| EvSKBLoad (path : string)       (* f.LoadAndIndex() on an SKBKeyringFile *)
| EvLoadMe                        (* LoadMe(LoadUserArg{}) *)
| EvGetComputedKeyFamily          (* me.GetComputedKeyFamily() *)
| EvGetDeviceKid                  (* ckf.GetActiveSibkeyKidForCurrentDevice() *)
| EvLookupByKid                   (* keyring.LookupByKid(kid) *)
| EvSearchLocal                   (* keyring.SearchWithComputedKeyFamily(ckf) *)
| EvGetSynced.                    (* ska.Me.GetSyncedSecretKey() *)

Definition is_file_io (e : Event) : bool :=
  match e with
  | EvOpen _ | EvReadKeyRing _ | EvSKBLoad _ => true
  | _ => false
  end.

Definition is_map_access (e : Event) : bool :=
  match e with
  | EvMapRead _ | EvMapWrite _ => true
  | _ => false
  end.

Definition is_map_write (e : Event) : bool :=
  match e with
  | EvMapWrite _ => true
  | _ => false
  end.

Definition is_device_event (e : Event) : bool :=
  match e with
  | EvGetDeviceKid | EvLookupByKid => true
  | _ => false
  end.

Definition is_synced_or_search (e : Event) : bool :=
  match e with
  | EvGetSynced | EvSearchLocal => true
  | _ => false
  end.

(** ** OpenPGP key material, as far as the file looks into it *)

(** [PgpFingerprint] is a [[20]byte]. *)
Abbreviation PgpFingerprint := (list N).

(** [*packet.PublicKey]: the [Fingerprint] field and the result of the
    [KeyIdString()] method are all the file reads of it. *)
Record packet_PublicKey : Type := mkPublicKey {
  Fingerprint : PgpFingerprint;
  KeyIdString : string
}.

(** [*packet.PrivateKey] is only ever compared with [nil]. *)
Record packet_PrivateKey : Type := mkPrivateKey {
  secret_material : list N
}.

(** [openpgp.Subkey] *)
Record Subkey : Type := mkSubkey {
  sub_PublicKey : option packet_PublicKey;
  sub_PrivateKey : option packet_PrivateKey
}.

(** [openpgp.Entity] *)
Record Entity : Type := mkEntity {
  PrimaryKey : option packet_PublicKey;
  PrivateKey : option packet_PrivateKey;
  Subkeys : list Subkey
}.

(** [openpgp.Key]; its zero value has every field [nil]. *)
Record Key : Type := mkKey {
  key_Entity : option Entity;
  key_PublicKey : option packet_PublicKey;
  key_PrivateKey : option packet_PrivateKey;
  key_SelfSignature : option (list N)
}.

Definition zero_Key : Key := mkKey None None None None.

(** [make([]openpgp.Key, n)]: a slice of length [n] of zero values. *)
Definition make_Keys (n : nat) : list Key := repeat zero_Key n.

(** The three queries of [openpgp.EntityList] that the fan-out calls. *)
Record OpenPGP : Type := mkOpenPGP {
  EntityList_KeysById : list Entity -> Z -> list Key;
  EntityList_KeysByIdUsage : list Entity -> Z -> Z -> list Key;
  EntityList_DecryptionKeys : list Entity -> list Key
}.

(** ** KeyringFile *)

Record KeyringFile : Type := mkKeyringFile {
  filename : string;
  Entities : list Entity;
  isPublic : bool;
  indexId : gmap string (option Entity);
  indexFingerprint : gmap (list N) (option Entity)
}.

(** [MakeKeyrings]: one fresh file object per name, nothing loaded. *)
Definition MakeKeyrings (filenames : list string) (isPublic : bool)
  : list KeyringFile :=
  map (fun fn => mkKeyringFile fn [] isPublic ∅ ∅) filenames.

(** *** Index *)

(** The two maps as the loops of [Index] build them. *)
Definition Indexes : Type :=
  (gmap string (option Entity) * gmap (list N) (option Entity))%type.

(** Body of both [if ... != nil] blocks: register a key under its
    identifier and its fingerprint, with [entity] as the value. *)
Definition register (entity : Entity) (ix : Indexes)
  (pk : option packet_PublicKey) : Indexes :=
  match pk with
  | Some pub =>
      (<[KeyIdString pub := Some entity]> (fst ix),
       <[Fingerprint pub := Some entity]> (snd ix))
  | None => ix
  end.

(** One iteration of the outer loop of [Index]. *)
Definition index_entity (ix : Indexes) (entity : Entity) : Indexes :=
  fold_left (fun ix' subkey => register entity ix' (sub_PublicKey subkey))
            (Subkeys entity)
            (register entity ix (PrimaryKey entity)).

Definition index_entities (es : list Entity) (ix : Indexes) : Indexes :=
  fold_left index_entity es ix.

(** [KeyringFile.Index]: both maps are made afresh; the result is
    always the [nil] error.  The counters [p] and [s] only feed the log
    and are left out. *)
Definition KeyringFile_Index (k : KeyringFile) : KeyringFile * option error :=
  let ix := index_entities (Entities k) (∅, ∅) in
  (mkKeyringFile (filename k) (Entities k) (isPublic k) (fst ix) (snd ix),
   None).

(** ** Requests *)

(** [SecretKeyArg]; the [Ui] field is only handed on to the unlocker. *)
Record SecretKeyArg {User : Type} : Type := mkSecretKeyArg {
  All : bool;
  DeviceKey : bool;
  SyncedPGPKey : bool;
  SearchKey : bool;
  Reason : string;
  Me : option User
}.
Arguments SecretKeyArg : clear implicits.
Arguments mkSecretKeyArg {User}.

Definition UseDeviceKey {User} (s : SecretKeyArg User) : bool :=
  All s || DeviceKey s.
Definition SearchForKey {User} (s : SecretKeyArg User) : bool :=
  All s || SearchKey s.
Definition UseSyncedPGPKey {User} (s : SecretKeyArg User) : bool :=
  All s || SyncedPGPKey s.

(** ** The environment *)

(** What [NewKeyrings] and [SKBFilenameForUser] ask of [Env]. *)
Record Env : Type := mkEnv {
  GetPublicKeyrings : list string;
  GetPgpSecretKeyrings : list string;
  GetSecretKeyringTemplate : string
}.

Record Usage : Type := mkUsage {
  GpgKeyring : bool
}.

(** [strings.Index(s, "%u") >= 0] *)
Fixpoint has_token (s : string) : bool :=
  match s with
  | EmptyString => false
  | String c s' =>
      match s' with
      | String c' _ =>
          if (Ascii.eqb c "%" && Ascii.eqb c' "u")%bool then true
          else has_token s'
      | EmptyString => false
      end
  end.

(** [strings.Replace(s, "%u", un, -1)]: every occurrence, left to right,
    without overlap. *)
Fixpoint replace_token (un : string) (s : string) : string :=
  match s with
  | EmptyString => EmptyString
  | String c s' =>
      match s' with
      | String c' s'' =>
          if (Ascii.eqb c "%" && Ascii.eqb c' "u")%bool
          then un ++ replace_token un s''
          else String c (replace_token un s')
      | EmptyString => String c EmptyString
      end
  end.

Definition SKBFilenameForUser (G_Env : Env) (un : string) : string :=
  let tmp := GetSecretKeyringTemplate G_Env in
  if negb (has_token tmp) then tmp
  else replace_token un tmp.

(** ** Fan-out lookups of the aggregate, and the stateful operations *)

Section Keyring.

Context {File SKB KID User ComputedKeyFamily : Type}.

(** The operating system and the OpenPGP reader.  [os.Open] returns a
    file handle and an error; [openpgp.ReadKeyRing] an entity list and an
    error.  [read_SKB_file] is the file access behind the per-user secret
    keyring: the blocks stored at a path, or an error. *)
Record Disk : Type := mkDisk {
  os_Open : string -> option File * option error;
  openpgp_ReadKeyRing : File -> list Entity * option error;
  read_SKB_file : string -> list SKB * option error
}.

(** Modelled from the spec: the type [SKBKeyringFile] is declared
    outside [keyring.go], in a source file that is not available.  A
    per-user secret keyring is a path and the secret key blocks loaded
    from it. *)
Record SKBKeyringFile : Type := mkSKBKeyringFile {
  skb_filename : string;
  Blocks : list SKB
}.

(** Modelled from the spec: the constructor [NewSKBKeyringFile] is
    missing with the type.  A per-user secret keyring is created empty
    for its path. *)
Definition NewSKBKeyringFile (path : string) : SKBKeyringFile :=
  mkSKBKeyringFile path [].

(** Modelled from the spec: the method [LoadAndIndex] of
    [SKBKeyringFile] is missing with the type.  Loading replaces the
    blocks by what is stored at the path; a load that fails, also when
    the file is not found, leaves the keyring as it was, so that a
    keyring whose file is not found is an empty keyring. *)
Definition SKBKeyringFile_LoadAndIndex (d : Disk) (f : SKBKeyringFile)
  : SKBKeyringFile * option error :=
  match read_SKB_file d (skb_filename f) with
  | (blocks, None) => (mkSKBKeyringFile (skb_filename f) blocks, None)
  | (_, Some e) => (f, Some e)
  end.

(** The user, its computed key family, and the lookups in the per-user
    secret keyring.  [LoadMe] returns a user or an error. *)
Record Collaborators : Type := mkCollaborators {
  user_name : User -> string;
  LoadMe : User + error;
  GetComputedKeyFamily : User -> option ComputedKeyFamily;
  GetSyncedSecretKey : User -> option SKB * option error;
  GetActiveSibkeyKidForCurrentDevice :
    ComputedKeyFamily -> option KID * option error;
  LookupByKid : SKBKeyringFile -> KID -> option SKB;
  SearchWithComputedKeyFamily :
    SKBKeyringFile -> ComputedKeyFamily -> option SKB
}.

(** [Keyrings]; the mutex carries no data. *)
Record Keyrings : Type := mkKeyrings {
  Public : list KeyringFile;
  Secret : list KeyringFile;
  skbMap : gmap string (option SKBKeyringFile)
}.

Definition NewKeyrings (e : Env) (usage : Usage) : Keyrings :=
  if GpgKeyring usage
  then mkKeyrings (MakeKeyrings (GetPublicKeyrings e) true)
                  (MakeKeyrings (GetPgpSecretKeyrings e) false)
                  ∅
  else mkKeyrings [] [] ∅.

(** [append(out, more...)] for every ring of a list, in order. *)
Definition append_each (per_file : KeyringFile -> list Key)
  (rings : list KeyringFile) (out : list Key) : list Key :=
  fold_left (fun out ring => out ++ per_file ring) rings out.

Definition KeysById (o : OpenPGP) (k : Keyrings) (id : Z) : list Key :=
  let out := make_Keys 10 in
  let out :=
    append_each (fun ring => EntityList_KeysById o (Entities ring) id)
                (Public k) out in
  let out :=
    append_each (fun ring => EntityList_KeysById o (Entities ring) id)
                (Secret k) out in
  out.

Definition KeysByIdUsage (o : OpenPGP) (k : Keyrings) (id : Z) (usage : Z)
  : list Key :=
  let out := make_Keys 10 in
  let out :=
    append_each
      (fun ring => EntityList_KeysByIdUsage o (Entities ring) id usage)
      (Public k) out in
  let out :=
    append_each
      (fun ring => EntityList_KeysByIdUsage o (Entities ring) id usage)
      (Secret k) out in
  out.

Definition DecryptionKeys (o : OpenPGP) (k : Keyrings) : list Key :=
  let out := make_Keys 10 in
  let out :=
    append_each (fun ring => EntityList_DecryptionKeys o (Entities ring))
                (Secret k) out in
  out.

(** *** FindKey *)

Fixpoint FindKey_loop (fp : PgpFingerprint) (secret : bool)
  (l : list KeyringFile) : option Entity :=
  match l with
  | [] => None
  | file :: rest =>
      match indexFingerprint file !! fp with
      | Some (Some key) =>
          if (negb secret || not_nil (PrivateKey key))%bool
          then Some key
          else FindKey_loop fp secret rest
      | _ => FindKey_loop fp secret rest
      end
  end.

Definition FindKey (k : Keyrings) (fp : PgpFingerprint) (secret : bool)
  : option Entity :=
  let l := if secret then Secret k else Public k in
  FindKey_loop fp secret l.

(** *** Loading the OpenPGP keyring files *)

(** Second half of [KeyringFile.Load], entered with [err == nil]: parse
    the file if there is one.  The entity list is assigned whatever the
    reader returns, also when it returns an error. *)
Definition Load_parse (d : Disk) (k : KeyringFile) (file : option File)
  : KeyringFile * option error * list Event :=
  match file with
  | Some f =>
      let '(el, err) := openpgp_ReadKeyRing d f in
      (mkKeyringFile (filename k) el (isPublic k)
                     (indexId k) (indexFingerprint k),
       err,
       [EvReadKeyRing (filename k)])
  | None => (k, None, [])
  end.

Definition KeyringFile_Load (d : Disk) (k : KeyringFile)
  : KeyringFile * option error * list Event :=
  let '(file, err) := os_Open d (filename k) in
  if os_IsNotExist err then
    let '(k', err', tr) := Load_parse d k file in
    (k', err', EvOpen (filename k) :: tr)
  else
    match err with
    | Some e => (k, Some e, [EvOpen (filename k)])
    | None =>
        let '(k', err', tr) := Load_parse d k file in
        (k', err', EvOpen (filename k) :: tr)
    end.

Definition KeyringFile_LoadAndIndex (d : Disk) (k : KeyringFile)
  : KeyringFile * option error * list Event :=
  let '(k', err, tr) := KeyringFile_Load d k in
  match err with
  | None => let '(k'', err') := KeyringFile_Index k' in (k'', err', tr)
  | Some e => (k', Some e, tr)
  end.

(** [Keyrings.LoadKeyrings]: the files are updated in place, up to and
    including the first one that fails. *)
Fixpoint Keyrings_LoadKeyrings (d : Disk) (v : list KeyringFile)
  : list KeyringFile * option error * list Event :=
  match v with
  | [] => ([], None, [])
  | k :: rest =>
      let '(k', err, tr) := KeyringFile_LoadAndIndex d k in
      match err with
      | Some e => (k' :: rest, Some e, tr)
      | None =>
          let '(rest', err', tr') := Keyrings_LoadKeyrings d rest in
          (k' :: rest', err', tr ++ tr')
      end
  end.

(** [Keyrings.Load].  A [nil] slice and an empty one are both the empty
    list: [LoadKeyrings] of either does nothing and returns [nil]. *)
Definition Keyrings_Load (d : Disk) (k : Keyrings)
  : Keyrings * option error * list Event :=
  let '(pub, err, tr) := Keyrings_LoadKeyrings d (Public k) in
  match err with
  | None =>
      let '(sec, _, tr') := Keyrings_LoadKeyrings d (Secret k) in
      (mkKeyrings pub sec (skbMap k), err, tr ++ tr')
  | Some _ => (mkKeyrings pub (Secret k) (skbMap k), err, tr)
  end.

(** *** The per-user secret keyring cache *)

Definition LoadSKBKeyring (d : Disk) (G_Env : Env) (k : Keyrings)
  (un : string)
  : (option SKBKeyringFile * option error) * Keyrings * list Event :=
  match skbMap k !! un with
  | Some (Some f) =>
      ((Some f, None), k, [EvLock; EvMapRead un; EvUnlock])
  | _ =>
      if Nat.eqb (String.length un) 0 then
        ((None, Some NoUsernameError), k, [EvLock; EvMapRead un; EvUnlock])
      else
        let path := SKBFilenameForUser G_Env un in
        let '(f, err) :=
          SKBKeyringFile_LoadAndIndex d (NewSKBKeyringFile path) in
        if (negb (not_nil err) || os_IsNotExist err)%bool then
          ((Some f, None),
           mkKeyrings (Public k) (Secret k) (<[un := Some f]> (skbMap k)),
           [EvLock; EvMapRead un; EvSKBLoad path; EvMapWrite un; EvUnlock])
        else
          ((Some f, err), k,
           [EvLock; EvMapRead un; EvSKBLoad path; EvUnlock])
  end.

(** [Global.LoadSKBKeyring] *)
Definition Global_LoadSKBKeyring (d : Disk) (G_Env : Env)
  (g_Keyrings : option Keyrings) (name : string)
  : (option SKBKeyringFile * option error) * option Keyrings * list Event :=
  match g_Keyrings with
  | None => ((None, Some NoKeyringsError), None, [])
  | Some k =>
      let '(r, k', tr) := LoadSKBKeyring d G_Env k name in
      (r, Some k', tr)
  end.

(** *** Secret key retrieval *)

(** The device-key step of [GetLockedLocalSecretKey]: the [if] chain on
    [ska.UseDeviceKey()]. *)
Definition device_key_step (c : Collaborators) (ska : SecretKeyArg User)
  (keyring : SKBKeyringFile) (ckf : ComputedKeyFamily)
  : option SKB * list Event :=
  if negb (UseDeviceKey ska) then (None, [])
  else
    match GetActiveSibkeyKidForCurrentDevice c ckf with
    | (_, Some _) => (None, [EvGetDeviceKid])
    | (Some kid, None) =>
        (LookupByKid c keyring kid, [EvGetDeviceKid; EvLookupByKid])
    | (None, None) => (None, [EvGetDeviceKid])
    end.

(** [GetLockedLocalSecretKey], for the user [me] that [ska.Me] points
    to.  The cache is shared with the caller, so its new state is part
    of the result. *)
Definition GetLockedLocalSecretKey (c : Collaborators) (d : Disk)
  (G_Env : Env) (k : Keyrings) (ska : SecretKeyArg User) (me : User)
  : option SKB * Keyrings * list Event :=
  let '((keyring, err), k', tr) :=
    LoadSKBKeyring d G_Env k (user_name c me) in
  match err, keyring with
  | None, Some keyring =>
      match GetComputedKeyFamily c me with
      | None => (None, k', tr ++ [EvGetComputedKeyFamily])
      | Some ckf =>
          let '(ret, tr_dev) := device_key_step c ska keyring ckf in
          match ret with
          | None =>
              if SearchForKey ska then
                (SearchWithComputedKeyFamily c keyring ckf, k',
                 tr ++ [EvGetComputedKeyFamily] ++ tr_dev ++ [EvSearchLocal])
              else
                (None, k', tr ++ [EvGetComputedKeyFamily] ++ tr_dev)
          | Some _ =>
              (ret, k', tr ++ [EvGetComputedKeyFamily] ++ tr_dev)
          end
      end
  | _, _ => (None, k', tr)
  end.

(** What [GetSecretKeyLocked] returns: [ret], [which] and [err]. *)
Record Locked : Type := mkLocked {
  ret : option SKB;
  which : string;
  err : option error
}.

(** The part of [GetSecretKeyLocked] after [ska.Me] is known. *)
Definition GetSecretKeyLocked_for (c : Collaborators) (d : Disk)
  (G_Env : Env) (k : Keyrings) (ska : SecretKeyArg User) (me : User)
  : Locked * Keyrings * list Event :=
  let '(local, k', tr) := GetLockedLocalSecretKey c d G_Env k ska me in
  match local with
  | Some _ => (mkLocked local "" None, k', tr)
  | None =>
      if negb (UseSyncedPGPKey ska) then
        (mkLocked None "" (Some NoSecretKeyError), k', tr)
      else
        match GetSyncedSecretKey c me with
        | (synced, Some e) =>
            (mkLocked synced "" (Some e), k', tr ++ [EvGetSynced])
        | (Some skb, None) =>
            (mkLocked (Some skb) "your Keybase.io passphrase" None,
             k', tr ++ [EvGetSynced])
        | (None, None) =>
            (mkLocked None "" (Some NoSecretKeyError),
             k', tr ++ [EvGetSynced])
        end
  end.

Definition GetSecretKeyLocked (c : Collaborators) (d : Disk)
  (G_Env : Env) (k : Keyrings) (ska : SecretKeyArg User)
  : Locked * Keyrings * list Event :=
  match Me ska with
  | Some me => GetSecretKeyLocked_for c d G_Env k ska me
  | None =>
      match LoadMe c with
      | inr e => (mkLocked None "" (Some e), k, [EvLoadMe])
      | inl me =>
          let '(r, k', tr) :=
            GetSecretKeyLocked_for c d G_Env k
              (mkSecretKeyArg (All ska) (DeviceKey ska) (SyncedPGPKey ska)
                              (SearchKey ska) (Reason ska) (Some me))
              me in
          (r, k', EvLoadMe :: tr)
      end
  end.

End Keyring.

Arguments Disk : clear implicits.
Arguments SKBKeyringFile : clear implicits.
Arguments Collaborators : clear implicits.
Arguments Keyrings : clear implicits.
Arguments Locked : clear implicits.

(** ** Notions used to state the properties *)

(** The public keys [Index] registers for an entity: the primary key if
    there is one, then the public key of every subkey that has one. *)
Definition public_keys (e : Entity) : list packet_PublicKey :=
  option_list (PrimaryKey e) ++ omap sub_PublicKey (Subkeys e).

Definition carries_id (id : string) (e : Entity) : bool :=
  existsb (fun pk => bool_decide (KeyIdString pk = id)) (public_keys e).

Definition carries_fp (fp : PgpFingerprint) (e : Entity) : bool :=
  existsb (fun pk => bool_decide (Fingerprint pk = fp)) (public_keys e).

(** The last entity of a list that satisfies [p]. *)
Fixpoint last_such (p : Entity -> bool) (es : list Entity) : option Entity :=
  match es with
  | [] => None
  | e :: es' =>
      match last_such p es' with
      | Some e' => Some e'
      | None => if p e then Some e else None
      end
  end.

(** No entity after position [i] satisfies [p]. *)
Definition none_later (p : Entity -> bool) (i : nat) (es : list Entity)
  : bool :=
  forallb (fun e => negb (p e)) (drop (S i) es).

(** What the first statement of [LoadSKBKeyring] reads from the cache:
    the cached file, or [nil] when the map has no entry or a [nil] one. *)
Definition cached {SKB} (k : Keyrings SKB) (un : string)
  : option (SKBKeyringFile SKB) :=
  match skbMap k !! un with
  | Some (Some f) => Some f
  | _ => None
  end.

(** The error of loading and indexing one OpenPGP keyring file, and the
    file object and trace that the attempt leaves. *)
Definition load_error {File SKB} (d : Disk File SKB) (f : KeyringFile)
  : option error :=
  snd (fst (KeyringFile_LoadAndIndex d f)).

Definition loaded {File SKB} (d : Disk File SKB) (f : KeyringFile)
  : KeyringFile :=
  fst (fst (KeyringFile_LoadAndIndex d f)).

Definition load_trace {File SKB} (d : Disk File SKB) (f : KeyringFile)
  : list Event :=
  snd (KeyringFile_LoadAndIndex d f).

(** The error of the load that [LoadSKBKeyring] attempts for a user that
    is not cached. *)
Definition skb_load_error {File SKB} (d : Disk File SKB) (G_Env : Env)
  (un : string) : option error :=
  snd (SKBKeyringFile_LoadAndIndex d
         (NewSKBKeyringFile (SKBFilenameForUser G_Env un))).

Definition skb_loaded {File SKB} (d : Disk File SKB) (G_Env : Env)
  (un : string) : SKBKeyringFile SKB :=
  fst (SKBKeyringFile_LoadAndIndex d
         (NewSKBKeyringFile (SKBFilenameForUser G_Env un))).

(** The states of the aggregate that the operations of this file reach
    from a new one.  Every call may see a different disk, environment
    and set of collaborators. *)
Inductive reachable {SKB : Type} : Keyrings SKB -> Prop :=
| reach_New (e : Env) (usage : Usage) :
    reachable (NewKeyrings e usage)
| reach_LoadSKBKeyring {File} (d : Disk File SKB) (G_Env : Env)
    (k : Keyrings SKB) (un : string) :
    reachable k ->
    reachable (snd (fst (LoadSKBKeyring d G_Env k un)))
| reach_Load {File} (d : Disk File SKB) (k : Keyrings SKB) :
    reachable k ->
    reachable (fst (fst (Keyrings_Load d k)))
| reach_GetSecretKeyLocked {File KID User ComputedKeyFamily}
    (c : Collaborators SKB KID User ComputedKeyFamily)
    (d : Disk File SKB) (G_Env : Env) (k : Keyrings SKB)
    (ska : SecretKeyArg User) :
    reachable k ->
    reachable (snd (fst (GetSecretKeyLocked c d G_Env k ska))).

(** The invariant of the cache: no entry for the empty username, and no
    username mapped to [nil]. *)
Definition cache_ok {SKB} (k : Keyrings SKB) : Prop :=
  skbMap k !! "" = None /\ forall un, skbMap k !! un <> Some None.

(** No event of a trace satisfies [p]. *)
Definition none_of (p : Event -> bool) (tr : list Event) : bool :=
  forallb (fun e => negb (p e)) tr.

(** [register] for each key of a list, in order. *)
Definition register_all (e : Entity) (pks : list packet_PublicKey)
  (ix : Indexes) : Indexes :=
  fold_left (fun ix' pk => register e ix' (Some pk)) pks ix.

(** The concatenation of the per-file results over a list of files. *)
Definition per_file_results (per_file : KeyringFile -> list Key)
  (rings : list KeyringFile) : list Key :=
  concat (map per_file rings).

Section Concrete.

Local Open Scope N_scope.

(** ** Concrete key material *)

(** Two different keys whose fingerprints end in the same eight bytes,
    so that their 64-bit identifiers coincide. *)
Definition pk_sub : packet_PublicKey :=
  mkPublicKey [17;34;51;68;85;102;119;136;153;170;187;204;
               1;2;3;4;5;6;7;8]
              "0102030405060708".

Definition pk_other : packet_PublicKey :=
  mkPublicKey [204;187;170;153;136;119;102;85;68;51;34;17;
               1;2;3;4;5;6;7;8]
              "0102030405060708".

Definition pk_alice : packet_PublicKey :=
  mkPublicKey [10;11;12;13;14;15;16;17;18;19;20;21;
               161;162;163;164;165;166;167;168]
              "A1A2A3A4A5A6A7A8".

Definition sk_alice : packet_PrivateKey := mkPrivateKey [42; 42; 42].

(** An entity with a primary key, private material and one subkey. *)
Definition ent_alice : Entity :=
  mkEntity (Some pk_alice) (Some sk_alice) [mkSubkey (Some pk_sub) None].

(** The public half of the same entity. *)
Definition ent_alice_public : Entity :=
  mkEntity (Some pk_alice) None [mkSubkey (Some pk_sub) None].

(** An unrelated entity whose primary key has the identifier of
    [pk_sub]. *)
Definition ent_other : Entity :=
  mkEntity (Some pk_other) None [].

Definition ring_collision : KeyringFile :=
  mkKeyringFile "pubring.gpg" [ent_alice; ent_other] true ∅ ∅.

(** A file whose entities were loaded before its path went away. *)
Definition ring_stale : KeyringFile :=
  mkKeyringFile "gone.gpg" [ent_alice] true ∅ ∅.


(** ** Concrete collaborators *)

(** A disk with two readable OpenPGP keyrings, one that cannot be opened
    and one that cannot be parsed; and with a per-user secret keyring
    for alice, one for bob that cannot be read, and none for anyone
    else.  File handles and secret key blocks are numbers. *)
Definition disk_sample : Disk nat nat :=
  mkDisk
    (fun path =>
       if String.eqb path "pubring.gpg" then (Some 1%nat, None)
       else if String.eqb path "secring.gpg" then (Some 2%nat, None)
       else if String.eqb path "garbled.gpg" then (Some 3%nat, None)
       else if String.eqb path "denied.gpg"
            then (None, Some (ErrOther "permission denied"))
       else (None, Some (ErrNotExist path)))
    (fun file =>
       match file with
       | 1%nat => ([ent_alice_public; ent_other], None)
       | 2%nat => ([ent_alice], None)
       | _ => ([], Some (ErrOther "malformed packet"))
       end)
    (fun path =>
       if String.eqb path "/keys/alice.skb" then ([7%nat; 8%nat], None)
       else if String.eqb path "/keys/bob.skb"
            then ([], Some (ErrOther "file is locked"))
       else ([], Some (ErrNotExist path))).

Definition env_sample : Env :=
  mkEnv ["pubring.gpg"] ["secring.gpg"] "/keys/%u.skb".

(** Users are their names, key identifiers are byte strings.  Every user
    has a key family with a device key; the device key is the first
    block of the keyring, the local search finds the last block. *)
Definition collab_base (synced : option nat * option error)
  : Collaborators nat (list N) string nat :=
  mkCollaborators
    (fun u => u)
    (inl "alice")
    (fun _ => Some 1%nat)
    (fun _ => synced)
    (fun _ => (Some [1; 2; 3], None))
    (fun f _ => head (Blocks f))
    (fun f _ => last (Blocks f)).

(** The subject has a synced key. *)
Definition collab_synced : Collaborators nat (list N) string nat :=
  collab_base (Some 99%nat, None).

(** The subject has no synced key. *)
Definition collab_unsynced : Collaborators nat (list N) string nat :=
  collab_base (None, None).

Definition ska_all : SecretKeyArg string :=
  mkSecretKeyArg true false false false "sign" (Some "alice").

Definition ska_synced_only : SecretKeyArg string :=
  mkSecretKeyArg false false true false "sign" (Some "alice").

(** A new aggregate, and aggregates with given OpenPGP files. *)
Definition keyrings_new : Keyrings nat :=
  NewKeyrings env_sample (mkUsage true).

Definition keyrings_of (pub sec : list KeyringFile) : Keyrings nat :=
  mkKeyrings pub sec ∅.

Definition indexed (name : string) (es : list Entity) (pub : bool)
  : KeyringFile :=
  fst (KeyringFile_Index (mkKeyringFile name es pub ∅ ∅)).

(** Two indexed secret files that know the fingerprint of [pk_alice]:
    the first holds only the public half of the entity. *)
Definition keyrings_two_secret : Keyrings nat :=
  keyrings_of []
              [indexed "secring-a.gpg" [ent_alice_public] false;
               indexed "secring-b.gpg" [ent_alice] false].

(** A public file that cannot be opened, between two that can. *)
Definition keyrings_public_denied : Keyrings nat :=
  keyrings_of [mkKeyringFile "pubring.gpg" [] true ∅ ∅;
               mkKeyringFile "denied.gpg" [] true ∅ ∅;
               mkKeyringFile "pubring-old.gpg" [] true ∅ ∅]
              [mkKeyringFile "secring.gpg" [] false ∅ ∅].

(** A secret file that cannot be parsed, after a readable public one. *)
Definition keyrings_secret_garbled : Keyrings nat :=
  keyrings_of [mkKeyringFile "pubring.gpg" [] true ∅ ∅]
              [mkKeyringFile "garbled.gpg" [] false ∅ ∅;
               mkKeyringFile "secring.gpg" [] false ∅ ∅].

(** The cache after alice (keyring on disk), bob (keyring unreadable)
    and carol (no keyring) have been asked for, in this order. *)
Definition keyrings_after_alice : Keyrings nat :=
  snd (fst (LoadSKBKeyring disk_sample env_sample keyrings_new "alice")).

Definition keyrings_after_bob : Keyrings nat :=
  snd (fst (LoadSKBKeyring disk_sample env_sample keyrings_after_alice "bob")).

Definition keyrings_after_carol : Keyrings nat :=
  snd (fst (LoadSKBKeyring disk_sample env_sample keyrings_after_bob "carol")).

End Concrete.

(** ** Statements that are compared with the code *)

(** Every subkey with public material resolves, by identifier and by
    fingerprint, to the entity that owns it. *)
Definition subkeys_resolve_to_parent (k : KeyringFile) : Prop :=
  let k' := fst (KeyringFile_Index k) in
  forall e sk pk,
    e ∈ Entities k -> sk ∈ Subkeys e -> sub_PublicKey sk = Some pk ->
    indexId k' !! KeyIdString pk = Some (Some e)
    /\ indexFingerprint k' !! Fingerprint pk = Some (Some e).

(** [Index] registers [pk] for [e]: it is the primary key of [e] or the
    public key of one of its subkeys. *)
Definition registered_for (e : Entity) (pk : packet_PublicKey) : Prop :=
  PrimaryKey e = Some pk
  \/ exists sk, sk ∈ Subkeys e /\ sub_PublicKey sk = Some pk.

(** The fan-out lookups return exactly the concatenation of the per-file
    results over the public files and then the secret files. *)
Definition fanout_exact {SKB} (o : OpenPGP) (k : Keyrings SKB)
  (id usage : Z) : Prop :=
  KeysById o k id
    = per_file_results (fun ring => EntityList_KeysById o (Entities ring) id)
                       (Public k ++ Secret k)
  /\ KeysByIdUsage o k id usage
    = per_file_results
        (fun ring => EntityList_KeysByIdUsage o (Entities ring) id usage)
        (Public k ++ Secret k)
  /\ DecryptionKeys o k
    = per_file_results
        (fun ring => EntityList_DecryptionKeys o (Entities ring))
        (Public k ++ Secret k).

(** [Load] of a file whose path does not exist returns no error and an
    empty entity list. *)
Definition missing_file_loads_empty {File SKB} (d : Disk File SKB)
  (k : KeyringFile) : Prop :=
  forall e,
    os_Open d (filename k) = (None, Some e) ->
    os_IsNotExist (Some e) = true ->
    snd (fst (KeyringFile_Load d k)) = None
    /\ Entities (fst (fst (KeyringFile_Load d k))) = [].

(** [LoadSKBKeyring] with the empty username fails with
    [NoUsernameError], does no file input or output, and does not access
    the cache map. *)
Definition empty_username_untouched {File SKB} (d : Disk File SKB)
  (G_Env : Env) (k : Keyrings SKB) : Prop :=
  snd (fst (fst (LoadSKBKeyring d G_Env k ""))) = Some NoUsernameError
  /\ none_of is_file_io (snd (LoadSKBKeyring d G_Env k "")) = true
  /\ none_of is_map_access (snd (LoadSKBKeyring d G_Env k "")) = true.

(** The condition under which [LoadSKBKeyring] caches the file it tried
    to load: [err == nil || os.IsNotExist(err)]. *)
Definition cacheable (err : option error) : bool :=
  (negb (not_nil err) || os_IsNotExist err)%bool.

(** The user whose keys [GetSecretKeyLocked] looks for: [ska.Me], or the
    user that [LoadMe] returns when [ska.Me] is [nil]. *)
Definition subject {SKB KID User ComputedKeyFamily}
  (c : Collaborators SKB KID User ComputedKeyFamily)
  (ska : SecretKeyArg User) : option User :=
  match Me ska with
  | Some me => Some me
  | None =>
      match LoadMe c with
      | inl me => Some me
      | inr _ => None
      end
  end.

(** A request with all flags on, for a subject with a device key in the
    per-user keyring, resolves with provenance "device key". *)
Definition device_key_provenance {File SKB KID User ComputedKeyFamily}
  (c : Collaborators SKB KID User ComputedKeyFamily) (d : Disk File SKB)
  (G_Env : Env) (k : Keyrings SKB) (ska : SecretKeyArg User) : Prop :=
  forall me keyring ckf kid skb synced found,
    All ska = true ->
    subject c ska = Some me ->
    fst (fst (LoadSKBKeyring d G_Env k (user_name c me)))
      = (Some keyring, None) ->
    GetComputedKeyFamily c me = Some ckf ->
    GetActiveSibkeyKidForCurrentDevice c ckf = (Some kid, None) ->
    LookupByKid c keyring kid = Some skb ->
    GetSyncedSecretKey c me = (Some synced, None) ->
    SearchWithComputedKeyFamily c keyring ckf = Some found ->
    ret (fst (fst (GetSecretKeyLocked c d G_Env k ska))) = Some skb
    /\ which (fst (fst (GetSecretKeyLocked c d G_Env k ska))) = "device key"
    /\ none_of is_synced_or_search (snd (GetSecretKeyLocked c d G_Env k ska))
       = true.

(** ** The remaining operations of the file *)

(** [KeyringFile.GetFilename] *)
Definition GetFilename (k : KeyringFile) : string := filename k.

(** [EmptyKeyRing]: the three queries return an empty slice. *)
Definition EmptyKeyRing_KeysById (id : Z) : list Key := [].
Definition EmptyKeyRing_KeysByIdUsage (id : Z) (usage : Z) : list Key := [].
Definition EmptyKeyRing_DecryptionKeys : list Key := [].

(** The loop of [KeyringFile.WriteTo].  The writer is the list of bytes
    written so far; [Serialize e] is what [e.Serialize(w)] appends to it
    and the error it returns. *)
Fixpoint WriteTo_loop (Serialize : Entity -> list N * option error)
  (es : list Entity) (w : list N) : list N * option error :=
  match es with
  | [] => (w, None)
  | e :: rest =>
      let '(bytes, err) := Serialize e in
      match err with
      | Some x => (w ++ bytes, Some x)
      | None => WriteTo_loop Serialize rest (w ++ bytes)
      end
  end.

Definition KeyringFile_WriteTo (Serialize : Entity -> list N * option error)
  (k : KeyringFile) (w : list N) : list N * option error :=
  WriteTo_loop Serialize (Entities k) w.

(** The arguments of a call [skb.PromptAndUnlock(reason, which, ui)];
    the user interface is part of the unlocker. *)
Record Prompt {SKB : Type} : Type := mkPrompt {
  prompt_skb : SKB;
  prompt_reason : string;
  prompt_which : string
}.
Arguments Prompt : clear implicits.
Arguments mkPrompt {SKB}.

(** [Keyrings.GetSecretKey]: the key and the error it returns, the
    prompt it made if it made one, the aggregate and the trace of
    [GetSecretKeyLocked]. *)
Definition GetSecretKey {File SKB KID User ComputedKeyFamily GenericKey}
  (c : Collaborators SKB KID User ComputedKeyFamily)
  (PromptAndUnlock : SKB -> string -> string
                     -> option GenericKey * option error)
  (d : Disk File SKB) (G_Env : Env) (k : Keyrings SKB)
  (ska : SecretKeyArg User)
  : (option GenericKey * option error) * option (Prompt SKB)
    * Keyrings SKB * list Event :=
  let '(r, k', tr) := GetSecretKeyLocked c d G_Env k ska in
  match err r, ret r with
  | None, Some skb =>
      (PromptAndUnlock skb (Reason ska) (which r),
       Some (mkPrompt skb (Reason ska) (which r)), k', tr)
  | _, _ => ((None, err r), None, k', tr)
  end.

(** ** Further notions used to state properties *)

(** The number of occurrences of the token that [replace_token]
    replaces. *)
Fixpoint count_tokens (s : string) : nat :=
  match s with
  | EmptyString => 0
  | String c s' =>
      match s' with
      | String c' s'' =>
          if (Ascii.eqb c "%" && Ascii.eqb c' "u")%bool
          then S (count_tokens s'')
          else count_tokens s'
      | EmptyString => 0
      end
  end.

(** What one file contributes to [FindKey]: the entry of its fingerprint
    index, if it is not [nil] and, for a secret lookup, has private
    material. *)
Definition hit (fp : PgpFingerprint) (secret : bool) (file : KeyringFile)
  : option Entity :=
  match indexFingerprint file !! fp with
  | Some (Some key) =>
      if (negb secret || not_nil (PrivateKey key))%bool then Some key
      else None
  | _ => None
  end.

(** The list of files that [FindKey] walks. *)
Definition searched {SKB} (k : Keyrings SKB) (secret : bool)
  : list KeyringFile :=
  if secret then Secret k else Public k.

(** Every entry of the two indexes of a file is an entity that carries
    a key with the identifier, respectively fingerprint, it is stored
    under. *)
Definition index_carries (f : KeyringFile) : Prop :=
  (forall id v, indexId f !! id = Some v ->
     exists e, v = Some e /\ carries_id id e = true)
  /\ (forall fp v, indexFingerprint f !! fp = Some v ->
       exists e, v = Some e /\ carries_fp fp e = true).

(** One aggregate comes from another by calls of [LoadSKBKeyring],
    [Keyrings.Load] and [GetSecretKeyLocked]. *)
Inductive evolves {SKB : Type} : Keyrings SKB -> Keyrings SKB -> Prop :=
| evolves_refl (k : Keyrings SKB) : evolves k k
| evolves_LoadSKBKeyring {File} (d : Disk File SKB) (G_Env : Env)
    (k k' : Keyrings SKB) (un : string) :
    evolves k k' ->
    evolves k (snd (fst (LoadSKBKeyring d G_Env k' un)))
| evolves_Load {File} (d : Disk File SKB) (k k' : Keyrings SKB) :
    evolves k k' ->
    evolves k (fst (fst (Keyrings_Load d k')))
| evolves_GetSecretKeyLocked {File KID User ComputedKeyFamily}
    (c : Collaborators SKB KID User ComputedKeyFamily)
    (d : Disk File SKB) (G_Env : Env) (k k' : Keyrings SKB)
    (ska : SecretKeyArg User) :
    evolves k k' ->
    evolves k (snd (fst (GetSecretKeyLocked c d G_Env k' ska))).

(** The event of the synced-key step, and that of the local search. *)
Definition synced_event (e : Event) : bool :=
  match e with
  | EvGetSynced => true
  | _ => false
  end.

Definition search_event (e : Event) : bool :=
  match e with
  | EvSearchLocal => true
  | _ => false
  end.

(** What the synced-key step of [GetSecretKeyLocked] makes of the answer
    of [GetSyncedSecretKey]. *)
Definition synced_outcome {SKB} (answer : option SKB * option error)
  : Locked SKB :=
  match answer with
  | (synced, Some e) => mkLocked synced "" (Some e)
  | (Some skb, None) => mkLocked (Some skb) "your Keybase.io passphrase" None
  | (None, None) => mkLocked None "" (Some NoSecretKeyError)
  end.

(** The events of reading the OpenPGP keyring files. *)
Definition is_pgp_io (e : Event) : bool :=
  match e with
  | EvOpen _ | EvReadKeyRing _ => true
  | _ => false
  end.

(** Every index of every file of the aggregate satisfies
    [index_carries]. *)
Definition files_carry {SKB} (k : Keyrings SKB) : Prop :=
  forall f, f ∈ Public k \/ f ∈ Secret k -> index_carries f.

(** ** More concrete data *)

(** The aggregate of [env_sample] after one [Load] from [disk_sample]. *)
Definition keyrings_loaded : Keyrings nat :=
  fst (fst (Keyrings_Load disk_sample keyrings_new)).

(** Requests for alice that set one flag, and a request with every flag
    on for bob, whose keyring cannot be read. *)
Definition ska_search_only : SecretKeyArg string :=
  mkSecretKeyArg false false false true "sign" (Some "alice").

Definition ska_all_bob : SecretKeyArg string :=
  mkSecretKeyArg true false false false "decrypt" (Some "bob").

(** An unlocker that accepts every key and returns it with the
    provenance it was shown. *)
Definition unlock_sample (skb : nat) (reason which : string)
  : option (nat * string) * option error :=
  (Some (skb, which), None).

(** A serializer that writes the fingerprint of the primary key and
    fails on an entity without one. *)
Definition serialize_sample (e : Entity) : list N * option error :=
  match PrimaryKey e with
  | Some pk => (Fingerprint pk, None)
  | None => ([], Some (ErrOther "no primary key"))
  end.

(** A file with an entity that [serialize_sample] cannot write. *)
Definition ring_headless : KeyringFile :=
  mkKeyringFile "pubring.gpg"
    [ent_other; mkEntity None None []; ent_alice] true ∅ ∅.

(** * Properties *)

(** ** Index: what an identifier and a fingerprint resolve to *)

Lemma last_such_snoc p es e :
  last_such p (es ++ [e]) = if p e then Some e else last_such p es.
Proof.
  induction es as [|a es IH]; simpl.
  - destruct (p e); reflexivity.
  - rewrite IH. destruct (p e); [reflexivity|].
    destruct (last_such p es); reflexivity.
Qed.

Lemma last_such_Some p es e :
  last_such p es = Some e -> e ∈ es /\ p e = true.
Proof.
  induction es as [|a es IH]; simpl; [discriminate|].
  destruct (last_such p es) as [e'|] eqn:E.
  - intros [= <-]. destruct (IH eq_refl) as [Hin Hp]. split; [|exact Hp].
    apply elem_of_cons. right. exact Hin.
  - destruct (p a) eqn:Ha; [|discriminate].
    intros [= <-]. split; [|exact Ha]. apply elem_of_cons. left. reflexivity.
Qed.

Lemma last_such_None p es :
  last_such p es = None -> forall e, e ∈ es -> p e = false.
Proof.
  induction es as [|a es IH]; simpl; intros H e He.
  - apply elem_of_nil in He. destruct He.
  - destruct (last_such p es) eqn:E; [discriminate|].
    destruct (p a) eqn:Ha; [discriminate|].
    apply elem_of_cons in He as [->|He]; [exact Ha|]. apply IH; [reflexivity|exact He].
Qed.

Lemma last_such_none_of p es :
  forallb (fun e => negb (p e)) es = true -> last_such p es = None.
Proof.
  induction es as [|a es IH]; simpl; [reflexivity|].
  intros H. apply andb_true_iff in H as [Ha Hes].
  rewrite (IH Hes). apply negb_true_iff in Ha. rewrite Ha. reflexivity.
Qed.

Lemma last_such_at p es i e :
  es !! i = Some e -> p e = true -> none_later p i es = true ->
  last_such p es = Some e.
Proof.
  revert i. induction es as [|a es IH]; intros i Hi Hp Hl; [discriminate|].
  destruct i as [|i]; simpl in *.
  - injection Hi as ->. unfold none_later in Hl. simpl in Hl. rewrite drop_0 in Hl.
    rewrite (last_such_none_of _ _ Hl), Hp. reflexivity.
  - rewrite (IH i Hi Hp Hl). reflexivity.
Qed.

Lemma fold_register_omap e sks ix :
  fold_left (fun ix' sk => register e ix' (sub_PublicKey sk)) sks ix
  = register_all e (omap sub_PublicKey sks) ix.
Proof.
  revert ix. induction sks as [|sk sks IH]; intros ix; [reflexivity|].
  simpl. rewrite IH. unfold register_all.
  destruct (sub_PublicKey sk); reflexivity.
Qed.

Lemma index_entity_register_all ix e :
  index_entity ix e = register_all e (public_keys e) ix.
Proof.
  unfold index_entity, public_keys, register_all.
  rewrite fold_left_app, fold_register_omap.
  destruct (PrimaryKey e); reflexivity.
Qed.

Lemma register_all_lookup e pks ix id fp :
  fst (register_all e pks ix) !! id
  = (if existsb (fun pk => bool_decide (KeyIdString pk = id)) pks
     then Some (Some e) else fst ix !! id)
  /\ snd (register_all e pks ix) !! fp
  = (if existsb (fun pk => bool_decide (Fingerprint pk = fp)) pks
     then Some (Some e) else snd ix !! fp).
Proof.
  revert ix. induction pks as [|pk pks IH]; intros ix; [split; reflexivity|].
  change (register_all e (pk :: pks) ix)
    with (register_all e pks (register e ix (Some pk))).
  destruct (IH (register e ix (Some pk))) as [IHid IHfp].
  cbn [existsb]. split.
  - rewrite IHid. cbn [register fst]. clear IHid IHfp IH.
    case_bool_decide as Hd; cbn [orb];
      destruct (existsb _ pks); try reflexivity.
    + rewrite Hd. apply lookup_insert_eq.
    + apply lookup_insert_ne. exact Hd.
  - rewrite IHfp. cbn [register snd]. clear IHid IHfp IH.
    case_bool_decide as Hd; cbn [orb];
      destruct (existsb _ pks); try reflexivity.
    + rewrite Hd. apply lookup_insert_eq.
    + apply lookup_insert_ne. exact Hd.
Qed.

Lemma index_entities_snoc es e ix :
  index_entities (es ++ [e]) ix = index_entity (index_entities es ix) e.
Proof. unfold index_entities. rewrite fold_left_app. reflexivity. Qed.

Lemma index_entities_lookup es ix id fp :
  fst (index_entities es ix) !! id
  = match last_such (carries_id id) es with
    | Some e => Some (Some e)
    | None => fst ix !! id
    end
  /\ snd (index_entities es ix) !! fp
  = match last_such (carries_fp fp) es with
    | Some e => Some (Some e)
    | None => snd ix !! fp
    end.
Proof.
  induction es as [|e es IH] using rev_ind; [split; reflexivity|].
  rewrite index_entities_snoc, index_entity_register_all, !last_such_snoc.
  destruct (register_all_lookup e (public_keys e) (index_entities es ix) id fp)
    as [Hid Hfp].
  destruct IH as [IHid IHfp].
  rewrite Hid, Hfp. unfold carries_id, carries_fp. split.
  - destruct (existsb (fun pk => bool_decide (KeyIdString pk = id)) _);
      [reflexivity|exact IHid].
  - destruct (existsb (fun pk => bool_decide (Fingerprint pk = fp)) _);
      [reflexivity|exact IHfp].
Qed.

Lemma Index_lookup k id fp :
  indexId (fst (KeyringFile_Index k)) !! id
    = Some <$> last_such (carries_id id) (Entities k)
  /\ indexFingerprint (fst (KeyringFile_Index k)) !! fp
    = Some <$> last_such (carries_fp fp) (Entities k).
Proof.
  unfold KeyringFile_Index. simpl.
  destruct (index_entities_lookup (Entities k) (∅, ∅) id fp) as [Hid Hfp].
  rewrite Hid, Hfp. simpl. rewrite !lookup_empty.
  split; [destruct (last_such (carries_id id) _)|destruct (last_such (carries_fp fp) _)]; reflexivity.
Qed.

Lemma registered_for_public_keys e pk :
  registered_for e pk -> pk ∈ public_keys e.
Proof.
  unfold registered_for, public_keys. intros [Hp|(sk & Hsk & Hpk)].
  - rewrite Hp. apply elem_of_app. left. apply list_elem_of_here.
  - apply elem_of_app. right. apply list_elem_of_omap. exists sk. split; assumption.
Qed.

Lemma carries_own_keys e pk :
  pk ∈ public_keys e ->
  carries_id (KeyIdString pk) e = true
  /\ carries_fp (Fingerprint pk) e = true.
Proof.
  intros Hin. apply list_elem_of_In in Hin.
  unfold carries_id, carries_fp. split; apply existsb_exists; exists pk;
    (split; [exact Hin|apply bool_decide_eq_true; reflexivity]).
Qed.

Lemma last_such_exists p es i e :
  es !! i = Some e -> p e = true ->
  exists e', last_such p es = Some e' /\ e' ∈ es /\ p e' = true
             /\ (none_later p i es = true -> e' = e).
Proof.
  intros Hi Hp. destruct (last_such p es) as [e'|] eqn:E.
  - exists e'. destruct (last_such_Some _ _ _ E) as [Hin Hp'].
    repeat split; try assumption.
    intros Hl. pose proof (last_such_at _ _ _ _ Hi Hp Hl) as E'. congruence.
  - pose proof (last_such_None _ _ E e) as Hn.
    rewrite Hn in Hp; [discriminate|]. apply list_elem_of_lookup. exists i. exact Hi.
Qed.

(** C8, as amended: after [Index], the identifier and the fingerprint of
    every primary key, and of every subkey with public material, are
    indexed, and each resolves to an entity of the file that carries a
    key with that identifier (fingerprint): the last such entity in file
    order.  It is the key's own entity whenever no later entity of the
    file carries a key with the same identifier (fingerprint).  [Index]
    itself returns no error. *)
Theorem Index_resolves_to_last_carrier (k : KeyringFile) (i : nat)
  (e : Entity) (pk : packet_PublicKey) :
  Entities k !! i = Some e ->
  registered_for e pk ->
  let k' := fst (KeyringFile_Index k) in
  snd (KeyringFile_Index k) = None
  /\ (exists e1,
        indexId k' !! KeyIdString pk = Some (Some e1)
        /\ last_such (carries_id (KeyIdString pk)) (Entities k) = Some e1
        /\ e1 ∈ Entities k
        /\ carries_id (KeyIdString pk) e1 = true
        /\ (none_later (carries_id (KeyIdString pk)) i (Entities k) = true
            -> e1 = e))
  /\ (exists e2,
        indexFingerprint k' !! Fingerprint pk = Some (Some e2)
        /\ last_such (carries_fp (Fingerprint pk)) (Entities k) = Some e2
        /\ e2 ∈ Entities k
        /\ carries_fp (Fingerprint pk) e2 = true
        /\ (none_later (carries_fp (Fingerprint pk)) i (Entities k) = true
            -> e2 = e)).
Proof.
  intros Hi Hreg k'.
  destruct (carries_own_keys e pk (registered_for_public_keys e pk Hreg))
    as [Hcid Hcfp].
  destruct (Index_lookup k (KeyIdString pk) (Fingerprint pk)) as [Hid Hfp].
  split; [reflexivity|]. split.
  - destruct (last_such_exists _ _ _ _ Hi Hcid) as (e1 & HL & Hin & Hc & Hown).
    exists e1. subst k'. rewrite Hid, HL. repeat split; assumption.
  - destruct (last_such_exists _ _ _ _ Hi Hcfp) as (e2 & HL & Hin & Hc & Hown).
    exists e2. subst k'. rewrite Hfp, HL. repeat split; assumption.
Qed.

(** The subkey of [ent_alice] is registered in [ring_collision], and no
    later entity has its fingerprint: the fingerprint resolves to
    [ent_alice], the identifier to the last carrier [ent_other]. *)
Lemma Index_resolves_to_last_carrier_witness :
  Entities ring_collision !! 0%nat = Some ent_alice
  /\ registered_for ent_alice pk_sub
  /\ indexId (fst (KeyringFile_Index ring_collision)) !! KeyIdString pk_sub
     = Some (Some ent_other)
  /\ indexFingerprint (fst (KeyringFile_Index ring_collision))
       !! Fingerprint pk_sub
     = Some (Some ent_alice).
Proof.
  assert (Hi : Entities ring_collision !! 0%nat = Some ent_alice)
    by reflexivity.
  assert (Hreg : registered_for ent_alice pk_sub).
  { right. exists (mkSubkey (Some pk_sub) None).
    split; [apply list_elem_of_here|reflexivity]. }
  destruct (Index_resolves_to_last_carrier ring_collision 0 ent_alice pk_sub
              Hi Hreg) as (_ & (e1 & H1 & L1 & _) & (e2 & H2 & L2 & _)).
  split; [exact Hi|]. split; [exact Hreg|]. split.
  - rewrite H1. vm_compute in L1. injection L1 as <-. reflexivity.
  - rewrite H2. vm_compute in L2. injection L2 as <-. reflexivity.
Defined.

(** C8, as stated, fails on [ring_collision]: the identifier of the
    subkey of [ent_alice] resolves to [ent_other], which registered the
    same identifier later and has no key with the subkey's fingerprint. *)
Lemma Index_subkey_id_not_parent :
  ~ subkeys_resolve_to_parent ring_collision.
Proof.
  intros H.
  destruct (H ent_alice (mkSubkey (Some pk_sub) None) pk_sub) as [Hid _].
  - apply list_elem_of_here.
  - apply list_elem_of_here.
  - reflexivity.
  - vm_compute in Hid. discriminate Hid.
Qed.

(** ** FindKey *)

Lemma FindKey_loop_secret fp l e :
  FindKey_loop fp true l = Some e ->
  PrivateKey e <> None
  /\ exists file, file ∈ l /\ indexFingerprint file !! fp = Some (Some e).
Proof.
  induction l as [|file rest IH]; simpl; [discriminate|].
  destruct (indexFingerprint file !! fp) as [[key|]|] eqn:E.
  - destruct (PrivateKey key) as [priv|] eqn:P; simpl.
    + intros [= <-]. split; [congruence|].
      exists file. split; [apply list_elem_of_here|exact E].
    + intros H. destruct (IH H) as (Hp & f & Hf & Hl). split; [exact Hp|].
      exists f. split; [apply elem_of_cons; right; exact Hf|exact Hl].
  - intros H. destruct (IH H) as (Hp & f & Hf & Hl). split; [exact Hp|].
    exists f. split; [apply elem_of_cons; right; exact Hf|exact Hl].
  - intros H. destruct (IH H) as (Hp & f & Hf & Hl). split; [exact Hp|].
    exists f. split; [apply elem_of_cons; right; exact Hf|exact Hl].
Qed.

(** C4: whatever entity [FindKey] returns for a secret lookup carries
    private key material, and it is the entry of a secret file's
    fingerprint index. *)
Theorem FindKey_secret_has_private {SKB} (k : Keyrings SKB)
  (fp : PgpFingerprint) (e : Entity) :
  FindKey k fp true = Some e ->
  PrivateKey e <> None
  /\ exists file,
       file ∈ Secret k /\ indexFingerprint file !! fp = Some (Some e).
Proof. unfold FindKey. apply FindKey_loop_secret. Qed.

(** The first secret file maps the fingerprint to an entity without
    private material; the lookup passes it over. *)
Lemma FindKey_secret_has_private_witness :
  indexFingerprint (indexed "secring-a.gpg" [ent_alice_public] false)
    !! Fingerprint pk_alice = Some (Some ent_alice_public)
  /\ FindKey keyrings_two_secret (Fingerprint pk_alice) true = Some ent_alice
  /\ PrivateKey ent_alice <> None.
Proof.
  split; [vm_compute; reflexivity|].
  assert (H : FindKey keyrings_two_secret (Fingerprint pk_alice) true
              = Some ent_alice) by (vm_compute; reflexivity).
  split; [exact H|].
  exact (proj1 (FindKey_secret_has_private keyrings_two_secret
                  (Fingerprint pk_alice) ent_alice H)).
Defined.

(** ** Fan-out lookups *)

Lemma append_each_spec per rings out :
  append_each per rings out = out ++ per_file_results per rings.
Proof.
  revert out. induction rings as [|ring rings IH]; intros out;
    unfold append_each, per_file_results in *; simpl.
  - rewrite app_nil_r. reflexivity.
  - rewrite IH, <- app_assoc. reflexivity.
Qed.

Lemma per_file_results_app per l1 l2 :
  per_file_results per (l1 ++ l2)
  = per_file_results per l1 ++ per_file_results per l2.
Proof. unfold per_file_results. rewrite map_app, concat_app. reflexivity. Qed.

(** C2: on an aggregate without keyring files no per-file result
    exists, and yet each of the three fan-out lookups returns ten
    zero-valued keys, the slice that [make([]openpgp.Key, 10)] creates
    and the loops append to; so none of them is the concatenation of the
    per-file results.  The same length argument applies to [KeysById]
    and [KeysByIdUsage] on every aggregate, whatever the OpenPGP library
    answers. *)
Theorem fanout_without_files {SKB} (o : OpenPGP) (e : Env) (id usage : Z) :
  let k := NewKeyrings (SKB:=SKB) e (mkUsage false) in
  (KeysById o k id = repeat zero_Key 10
   /\ KeysByIdUsage o k id usage = repeat zero_Key 10
   /\ DecryptionKeys o k = repeat zero_Key 10)
  /\ (per_file_results
        (fun ring => EntityList_KeysById o (Entities ring) id)
        (Public k ++ Secret k) = []
      /\ per_file_results
           (fun ring => EntityList_KeysByIdUsage o (Entities ring) id usage)
           (Public k ++ Secret k) = []
      /\ per_file_results
           (fun ring => EntityList_DecryptionKeys o (Entities ring))
           (Public k ++ Secret k) = [])
  /\ ~ fanout_exact o k id usage
  /\ forall k' : Keyrings SKB,
       KeysById o k' id
       <> per_file_results
            (fun ring => EntityList_KeysById o (Entities ring) id)
            (Public k' ++ Secret k')
       /\ KeysByIdUsage o k' id usage
          <> per_file_results
               (fun ring =>
                  EntityList_KeysByIdUsage o (Entities ring) id usage)
               (Public k' ++ Secret k').
Proof.
  intros k. subst k. split; [repeat split|]. split; [repeat split|].
  split; [intros (H & _); discriminate H|].
  intros k'. unfold KeysById, KeysByIdUsage.
  rewrite !append_each_spec, <- !app_assoc, <- !per_file_results_app.
  split; intros H; apply (f_equal (@List.length Key)) in H;
    rewrite length_app in H; cbn in H; lia.
Qed.

(** ** Loading one OpenPGP keyring file *)

Lemma MakeKeyrings_fresh names pub k :
  k ∈ MakeKeyrings names pub -> Entities k = [].
Proof.
  unfold MakeKeyrings. intros H. apply list_elem_of_In, in_map_iff in H.
  destruct H as (fn & <- & _). reflexivity.
Qed.

(** C9, as amended: [Load] of a file whose path does not exist returns
    no error and leaves the file, and so its entity list, as it was: the
    list is empty after the call if it was empty before, as it is for
    every file that [MakeKeyrings] creates. *)
Theorem Load_missing_file_noop {File SKB} (d : Disk File SKB)
  (k : KeyringFile) (e : error) :
  os_Open d (filename k) = (None, Some e) ->
  os_IsNotExist (Some e) = true ->
  KeyringFile_Load d k = (k, None, [EvOpen (filename k)])
  /\ (Entities k = [] -> Entities (fst (fst (KeyringFile_Load d k))) = [])
  /\ (forall names pub,
        k ∈ MakeKeyrings names pub ->
        Entities (fst (fst (KeyringFile_Load d k))) = []).
Proof.
  intros Hopen Hne.
  assert (HL : KeyringFile_Load d k = (k, None, [EvOpen (filename k)])).
  { unfold KeyringFile_Load. rewrite Hopen, Hne. reflexivity. }
  rewrite HL. simpl. split; [reflexivity|]. split; [tauto|].
  intros names pub Hin. exact (MakeKeyrings_fresh names pub k Hin).
Qed.

Lemma Load_missing_file_noop_witness :
  KeyringFile_Load disk_sample (mkKeyringFile "absent.gpg" [] false ∅ ∅)
  = (mkKeyringFile "absent.gpg" [] false ∅ ∅, None, [EvOpen "absent.gpg"]).
Proof.
  exact (proj1 (Load_missing_file_noop disk_sample
                  (mkKeyringFile "absent.gpg" [] false ∅ ∅)
                  (ErrNotExist "absent.gpg") eq_refl eq_refl)).
Defined.

(** C9, as stated, fails on [ring_stale]: its path does not exist,
    [Load] succeeds, and the entity list still holds the entity loaded
    earlier. *)
Lemma Load_missing_file_keeps_entities :
  ~ missing_file_loads_empty disk_sample ring_stale.
Proof.
  intros H.
  destruct (H (ErrNotExist "gone.gpg") eq_refl eq_refl) as [_ Hent].
  vm_compute in Hent. discriminate Hent.
Qed.

(** ** Loading all OpenPGP keyring files *)

Section BulkLoad.

Context {File SKB : Type}.
Variable d : Disk File SKB.

Lemma LoadAndIndex_eta (f : KeyringFile) :
  KeyringFile_LoadAndIndex d f = (loaded d f, load_error d f, load_trace d f).
Proof.
  unfold loaded, load_error, load_trace.
  destruct (KeyringFile_LoadAndIndex d f) as [[f' e] tr]. reflexivity.
Qed.

Lemma LoadKeyrings_all_ok (v : list KeyringFile) :
  (forall f, f ∈ v -> load_error d f = None) ->
  Keyrings_LoadKeyrings d v
  = (map (loaded d) v, None, concat (map (load_trace d) v)).
Proof.
  induction v as [|f v IH]; intros Hok; [reflexivity|].
  cbn [Keyrings_LoadKeyrings]. rewrite LoadAndIndex_eta.
  rewrite (Hok f (list_elem_of_here _ _)).
  rewrite IH; [reflexivity|].
  intros g Hg. apply Hok. apply elem_of_cons. right. exact Hg.
Qed.

Lemma LoadKeyrings_first_failure (pre post : list KeyringFile)
  (g : KeyringFile) (e : error) :
  (forall f, f ∈ pre -> load_error d f = None) ->
  load_error d g = Some e ->
  Keyrings_LoadKeyrings d (pre ++ g :: post)
  = (map (loaded d) pre ++ loaded d g :: post, Some e,
     concat (map (load_trace d) pre) ++ load_trace d g).
Proof.
  induction pre as [|f pre IH]; intros Hok Hg.
  - cbn [app map concat Keyrings_LoadKeyrings].
    rewrite LoadAndIndex_eta, Hg. reflexivity.
  - cbn [app map concat Keyrings_LoadKeyrings].
    rewrite LoadAndIndex_eta, (Hok f (list_elem_of_here _ _)).
    rewrite IH; [rewrite app_assoc; reflexivity| |exact Hg].
    intros h Hh. apply Hok. apply elem_of_cons. right. exact Hh.
Qed.

Lemma first_failure_exists (v : list KeyringFile) (f : KeyringFile) :
  f ∈ v -> load_error d f <> None ->
  exists pre g post e,
    v = pre ++ g :: post
    /\ (forall h, h ∈ pre -> load_error d h = None)
    /\ load_error d g = Some e.
Proof.
  induction v as [|a v IH]; intros Hin Hf.
  - apply elem_of_nil in Hin. destruct Hin.
  - destruct (load_error d a) as [e|] eqn:Ea.
    + exists [], a, v, e. split; [reflexivity|]. split; [|exact Ea].
      intros h Hh. apply elem_of_nil in Hh. destruct Hh.
    + apply elem_of_cons in Hin as [->|Hin]; [congruence|].
      destruct (IH Hin Hf) as (pre & g & post & e & -> & Hok & Hg).
      exists (a :: pre), g, post, e. split; [reflexivity|]. split; [|exact Hg].
      intros h Hh. apply elem_of_cons in Hh as [->|Hh]; [exact Ea|].
      apply Hok. exact Hh.
Qed.

(** C7: if loading some public file fails, [Load] returns the error of
    the first public file that fails; the public files before it are
    loaded, the ones after it and all secret files are left as they
    were, and the trace holds nothing beyond the failing file.  If no
    public file fails, [Load] returns no error, whatever happens to the
    secret files, which are loaded as [LoadKeyrings] leaves them. *)
Theorem Load_public_hard_secret_swallowed (k : Keyrings SKB) :
  (forall f, f ∈ Public k -> load_error d f <> None ->
     exists pre g post e,
       Public k = pre ++ g :: post
       /\ (forall h, h ∈ pre -> load_error d h = None)
       /\ load_error d g = Some e
       /\ Keyrings_Load d k
          = (mkKeyrings (map (loaded d) pre ++ loaded d g :: post)
                        (Secret k) (skbMap k),
             Some e,
             concat (map (load_trace d) pre) ++ load_trace d g))
  /\ ((forall f, f ∈ Public k -> load_error d f = None) ->
      snd (fst (Keyrings_Load d k)) = None
      /\ Public (fst (fst (Keyrings_Load d k))) = map (loaded d) (Public k)
      /\ Secret (fst (fst (Keyrings_Load d k)))
         = fst (fst (Keyrings_LoadKeyrings d (Secret k)))
      /\ snd (Keyrings_Load d k)
         = concat (map (load_trace d) (Public k))
           ++ snd (Keyrings_LoadKeyrings d (Secret k))).
Proof.
  split.
  - intros f Hin Hf.
    destruct (first_failure_exists (Public k) f Hin Hf)
      as (pre & g & post & e & Hv & Hok & Hg).
    exists pre, g, post, e. repeat split; try assumption.
    unfold Keyrings_Load. rewrite Hv.
    rewrite (LoadKeyrings_first_failure pre post g e Hok Hg). reflexivity.
  - intros Hok. unfold Keyrings_Load.
    rewrite (LoadKeyrings_all_ok (Public k) Hok).
    destruct (Keyrings_LoadKeyrings d (Secret k)) as [[sec e] tr].
    repeat split; reflexivity.
Qed.

End BulkLoad.

(** On [keyrings_public_denied] the second public file fails: the error
    is returned, only the first two public files are touched.  On
    [keyrings_secret_garbled] the first secret file fails to parse:
    [Load] returns no error, and the secret file after it is not even
    opened. *)
Lemma Load_public_hard_secret_swallowed_witness :
  (snd (fst (Keyrings_Load disk_sample keyrings_public_denied))
     = Some (ErrOther "permission denied")
   /\ Secret (fst (fst (Keyrings_Load disk_sample keyrings_public_denied)))
      = Secret keyrings_public_denied
   /\ snd (Keyrings_Load disk_sample keyrings_public_denied)
      = [EvOpen "pubring.gpg"; EvReadKeyRing "pubring.gpg";
         EvOpen "denied.gpg"])
  /\ (load_error disk_sample (mkKeyringFile "garbled.gpg" [] false ∅ ∅)
       = Some (ErrOther "malformed packet")
     /\ snd (fst (Keyrings_Load disk_sample keyrings_secret_garbled)) = None
     /\ snd (Keyrings_Load disk_sample keyrings_secret_garbled)
        = [EvOpen "pubring.gpg"; EvReadKeyRing "pubring.gpg";
           EvOpen "garbled.gpg"; EvReadKeyRing "garbled.gpg"]).
Proof.
  split.
  - destruct (proj1 (Load_public_hard_secret_swallowed disk_sample
                       keyrings_public_denied)
                    (mkKeyringFile "denied.gpg" [] true ∅ ∅))
      as (pre & g & post & e & Hv & Hok & Hg & HL).
    + apply elem_of_cons. right. apply list_elem_of_here.
    + vm_compute. discriminate.
    + vm_compute. repeat split; reflexivity.
  - split; [vm_compute; reflexivity|].
    destruct (proj2 (Load_public_hard_secret_swallowed disk_sample
                       keyrings_secret_garbled)) as (He & _ & _ & Htr).
    + intros f Hf. apply elem_of_cons in Hf as [->|Hf];
        [vm_compute; reflexivity|]. apply elem_of_nil in Hf. destruct Hf.
    + split; [exact He|]. rewrite Htr. vm_compute. reflexivity.
Defined.

(** ** The per-user secret keyring cache *)

Section Cache.

Context {File SKB : Type}.

Lemma length_nonempty (un : string) :
  un <> "" -> Nat.eqb (String.length un) 0 = false.
Proof. destruct un; [congruence|reflexivity]. Qed.

Lemma length_zero_empty (un : string) :
  Nat.eqb (String.length un) 0 = true -> un = "".
Proof. destruct un; [reflexivity|discriminate]. Qed.

Lemma skb_load_eta (d : Disk File SKB) (G_Env : Env) (un : string) :
  SKBKeyringFile_LoadAndIndex d
    (NewSKBKeyringFile (SKBFilenameForUser G_Env un))
  = (skb_loaded d G_Env un, skb_load_error d G_Env un).
Proof.
  unfold skb_loaded, skb_load_error.
  destruct (SKBKeyringFile_LoadAndIndex d _). reflexivity.
Qed.

(** A cache hit: nothing but the lookup happens. *)
Lemma LoadSKBKeyring_hit (d : Disk File SKB) G_Env (k : Keyrings SKB) un f :
  cached k un = Some f ->
  LoadSKBKeyring d G_Env k un
  = ((Some f, None), k, [EvLock; EvMapRead un; EvUnlock]).
Proof.
  unfold cached, LoadSKBKeyring.
  destruct (skbMap k !! un) as [[f'|]|]; [|discriminate|discriminate].
  intros [= ->]. reflexivity.
Qed.

(** No hit and the empty username. *)
Lemma LoadSKBKeyring_empty (d : Disk File SKB) G_Env (k : Keyrings SKB) :
  cached k "" = None ->
  LoadSKBKeyring d G_Env k ""
  = ((None, Some NoUsernameError), k, [EvLock; EvMapRead ""; EvUnlock]).
Proof.
  unfold cached, LoadSKBKeyring.
  destruct (skbMap k !! "") as [[f'|]|]; [discriminate| |]; reflexivity.
Qed.

(** No hit and a username: the load is attempted, and its outcome is
    cached or not. *)
Lemma LoadSKBKeyring_miss (d : Disk File SKB) G_Env (k : Keyrings SKB) un :
  un <> "" -> cached k un = None ->
  LoadSKBKeyring d G_Env k un
  = if cacheable (skb_load_error d G_Env un)
    then ((Some (skb_loaded d G_Env un), None),
          mkKeyrings (Public k) (Secret k)
                     (<[un := Some (skb_loaded d G_Env un)]> (skbMap k)),
          [EvLock; EvMapRead un; EvSKBLoad (SKBFilenameForUser G_Env un);
           EvMapWrite un; EvUnlock])
    else ((Some (skb_loaded d G_Env un), skb_load_error d G_Env un), k,
          [EvLock; EvMapRead un; EvSKBLoad (SKBFilenameForUser G_Env un);
           EvUnlock]).
Proof.
  intros Hne Hc. unfold cached in Hc. unfold LoadSKBKeyring, cacheable.
  rewrite (length_nonempty un Hne), skb_load_eta.
  destruct (skbMap k !! un) as [[f'|]|]; [discriminate| |]; reflexivity.
Qed.

(** Modelled loader: a load that fails leaves the new file empty. *)
Lemma skb_loaded_failed (d : Disk File SKB) G_Env un e :
  skb_load_error d G_Env un = Some e ->
  skb_loaded d G_Env un = NewSKBKeyringFile (SKBFilenameForUser G_Env un).
Proof.
  unfold skb_load_error, skb_loaded, SKBKeyringFile_LoadAndIndex.
  destruct (read_SKB_file d _) as [blocks [e'|]]; [reflexivity|discriminate].
Qed.

(** The three ways the map can come out of a call. *)
Lemma LoadSKBKeyring_state (d : Disk File SKB) G_Env (k : Keyrings SKB) un :
  snd (fst (LoadSKBKeyring d G_Env k un)) = k
  \/ (un <> "" /\ cached k un = None
      /\ snd (fst (LoadSKBKeyring d G_Env k un))
         = mkKeyrings (Public k) (Secret k)
             (<[un := Some (skb_loaded d G_Env un)]> (skbMap k))).
Proof.
  destruct (cached k un) as [f|] eqn:Hc.
  - left. rewrite (LoadSKBKeyring_hit d G_Env k un f Hc). reflexivity.
  - destruct (Nat.eqb (String.length un) 0) eqn:Hlen.
    + apply length_zero_empty in Hlen. subst un. left.
      rewrite (LoadSKBKeyring_empty d G_Env k Hc). reflexivity.
    + assert (Hne : un <> "") by (intros ->; discriminate Hlen).
      rewrite (LoadSKBKeyring_miss d G_Env k un Hne Hc).
      destruct (cacheable _); [right|left; reflexivity].
      repeat split; assumption.
Qed.

Lemma LoadSKBKeyring_cache_ok (d : Disk File SKB) G_Env (k : Keyrings SKB) un :
  cache_ok k -> cache_ok (snd (fst (LoadSKBKeyring d G_Env k un))).
Proof.
  intros [Hempty Hnil].
  destruct (LoadSKBKeyring_state d G_Env k un) as [->|(Hne & _ & ->)];
    [split; assumption|].
  split; cbn [skbMap].
  - rewrite lookup_insert_ne; [exact Hempty|exact Hne].
  - intros un'. destruct (decide (un = un')) as [->|Hd].
    + rewrite lookup_insert_eq. discriminate.
    + rewrite lookup_insert_ne; [apply Hnil|exact Hd].
Qed.

Lemma Keyrings_Load_skbMap (d : Disk File SKB) (k : Keyrings SKB) :
  skbMap (fst (fst (Keyrings_Load d k))) = skbMap k.
Proof.
  unfold Keyrings_Load.
  destruct (Keyrings_LoadKeyrings d (Public k)) as [[pub [e|]] tr].
  - reflexivity.
  - destruct (Keyrings_LoadKeyrings d (Secret k)) as [[sec e'] tr'].
    reflexivity.
Qed.

End Cache.

(** ** Secret key retrieval *)

Section Retrieval.

Context {File SKB KID User ComputedKeyFamily : Type}.
Variable c : Collaborators SKB KID User ComputedKeyFamily.
Variable d : Disk File SKB.
Variable G_Env : Env.

Lemma LoadSKBKeyring_eta (k : Keyrings SKB) (un : string) :
  LoadSKBKeyring d G_Env k un
  = (fst (fst (LoadSKBKeyring d G_Env k un)),
     snd (fst (LoadSKBKeyring d G_Env k un)),
     snd (LoadSKBKeyring d G_Env k un)).
Proof. destruct (LoadSKBKeyring d G_Env k un) as [[r k'] tr]. reflexivity. Qed.

(** The only effect of the local lookup on the aggregate is that of its
    call to [LoadSKBKeyring]. *)
Lemma GetLockedLocalSecretKey_state (k : Keyrings SKB)
  (ska : SecretKeyArg User) (me : User) :
  snd (fst (GetLockedLocalSecretKey c d G_Env k ska me))
  = snd (fst (LoadSKBKeyring d G_Env k (user_name c me))).
Proof.
  unfold GetLockedLocalSecretKey.
  destruct (LoadSKBKeyring d G_Env k (user_name c me))
    as [[[keyring e] k'] tr]. cbn [fst snd].
  destruct e as [e|]; [reflexivity|].
  destruct keyring as [keyring|]; [|reflexivity].
  destruct (GetComputedKeyFamily c me) as [ckf|]; [|reflexivity].
  destruct (device_key_step c ska keyring ckf) as [[skb|] tr'];
    [reflexivity|].
  destruct (SearchForKey ska); reflexivity.
Qed.

Lemma GetSecretKeyLocked_for_state (k : Keyrings SKB)
  (ska : SecretKeyArg User) (me : User) :
  snd (fst (GetSecretKeyLocked_for c d G_Env k ska me))
  = snd (fst (LoadSKBKeyring d G_Env k (user_name c me))).
Proof.
  unfold GetSecretKeyLocked_for.
  rewrite <- (GetLockedLocalSecretKey_state k ska me).
  destruct (GetLockedLocalSecretKey c d G_Env k ska me) as [[local k'] tr].
  cbn [fst snd].
  destruct local as [skb|]; [reflexivity|].
  destruct (UseSyncedPGPKey ska); cbn [negb]; [|reflexivity].
  destruct (GetSyncedSecretKey c me) as [[skb|] [e|]]; reflexivity.
Qed.

Lemma GetSecretKeyLocked_state (k : Keyrings SKB) (ska : SecretKeyArg User) :
  snd (fst (GetSecretKeyLocked c d G_Env k ska)) = k
  \/ exists me,
       snd (fst (GetSecretKeyLocked c d G_Env k ska))
       = snd (fst (LoadSKBKeyring d G_Env k (user_name c me))).
Proof.
  unfold GetSecretKeyLocked. destruct (Me ska) as [me|].
  - right. exists me. apply GetSecretKeyLocked_for_state.
  - destruct (LoadMe c) as [me|e]; [|left; reflexivity].
    right. exists me.
    rewrite <- (GetSecretKeyLocked_for_state k
                  (mkSecretKeyArg (All ska) (DeviceKey ska) (SyncedPGPKey ska)
                     (SearchKey ska) (Reason ska) (Some me)) me).
    destruct (GetSecretKeyLocked_for _ _ _ _ _ _) as [[r k'] tr].
    reflexivity.
Qed.

End Retrieval.

(** The invariant holds in every reachable state. *)
Lemma reachable_cache_ok {SKB} (k : Keyrings SKB) :
  reachable k -> cache_ok k.
Proof.
  induction 1 as [e usage|File d G_Env k un _ IH|File d k _ IH
                 |File KID User CKF c d G_Env k ska _ IH].
  - unfold NewKeyrings. destruct (GpgKeyring usage);
      (split; cbn [skbMap];
       [apply lookup_empty|intros un; rewrite lookup_empty; discriminate]).
  - apply LoadSKBKeyring_cache_ok. exact IH.
  - unfold cache_ok. rewrite Keyrings_Load_skbMap. exact IH.
  - destruct (GetSecretKeyLocked_state c d G_Env k ska) as [->|[me ->]];
      [exact IH|]. apply LoadSKBKeyring_cache_ok. exact IH.
Qed.

Lemma cache_ok_cached_empty {SKB} (k : Keyrings SKB) :
  cache_ok k -> cached k "" = None.
Proof. intros [H _]. unfold cached. rewrite H. reflexivity. Qed.

(** C10: in every reachable state the map has no entry for the empty
    username and maps no username to [nil]; so the lookup that
    [LoadSKBKeyring] does first finds nothing for the empty username. *)
Theorem reachable_no_empty_no_nil {SKB} (k : Keyrings SKB) :
  reachable k ->
  skbMap k !! "" = None
  /\ (forall un, skbMap k !! un <> Some None)
  /\ cached k "" = None.
Proof.
  intros Hr. pose proof (reachable_cache_ok k Hr) as Hok.
  destruct Hok as [H1 H2]. split; [exact H1|]. split; [exact H2|].
  apply cache_ok_cached_empty. split; assumption.
Qed.

Lemma keyrings_after_carol_reachable : reachable keyrings_after_carol.
Proof. repeat apply reach_LoadSKBKeyring. apply reach_New. Qed.

(** After three calls the cache holds alice and carol, and still
    nothing for the empty username. *)
Lemma reachable_no_empty_no_nil_witness :
  skbMap keyrings_after_carol !! "alice"
    = Some (Some (mkSKBKeyringFile "/keys/alice.skb" [7; 8]))
  /\ skbMap keyrings_after_carol !! "carol"
    = Some (Some (mkSKBKeyringFile "/keys/carol.skb" []))
  /\ skbMap keyrings_after_carol !! "" = None
  /\ cached keyrings_after_carol "" = None.
Proof.
  split; [vm_compute; reflexivity|]. split; [vm_compute; reflexivity|].
  destruct (reachable_no_empty_no_nil keyrings_after_carol
              keyrings_after_carol_reachable) as (H1 & _ & H3).
  split; assumption.
Defined.

(** C6, as amended: in every reachable state, [LoadSKBKeyring] with the
    empty username takes the lock, reads the map entry of the empty
    username, and then fails with [NoUsernameError]; it does no file
    input or output and leaves the aggregate, and so the map, as it
    was. *)
Theorem LoadSKBKeyring_empty_username {File SKB} (d : Disk File SKB)
  (G_Env : Env) (k : Keyrings SKB) :
  reachable k ->
  LoadSKBKeyring d G_Env k ""
    = ((None, Some NoUsernameError), k, [EvLock; EvMapRead ""; EvUnlock])
  /\ none_of is_file_io (snd (LoadSKBKeyring d G_Env k "")) = true
  /\ none_of is_map_write (snd (LoadSKBKeyring d G_Env k "")) = true.
Proof.
  intros Hr.
  pose proof (LoadSKBKeyring_empty d G_Env k
                (cache_ok_cached_empty k (reachable_cache_ok k Hr))) as HL.
  rewrite HL. repeat split; reflexivity.
Qed.

Lemma LoadSKBKeyring_empty_username_witness :
  LoadSKBKeyring disk_sample env_sample keyrings_after_carol ""
  = ((None, Some NoUsernameError), keyrings_after_carol,
     [EvLock; EvMapRead ""; EvUnlock]).
Proof.
  exact (proj1 (LoadSKBKeyring_empty_username disk_sample env_sample
                  keyrings_after_carol keyrings_after_carol_reachable)).
Defined.

(** C6, as stated, fails on a new aggregate: the call reads the map
    before it looks at the username. *)
Lemma LoadSKBKeyring_empty_username_reads_map :
  ~ empty_username_untouched disk_sample env_sample keyrings_new.
Proof.
  intros (_ & _ & H). vm_compute in H. discriminate H.
Qed.

Section Caching.

Context {File SKB : Type}.
Variable d : Disk File SKB.
Variable G_Env : Env.

Lemma cached_insert_ne (k : Keyrings SKB) (un un' : string)
  (f : SKBKeyringFile SKB) :
  un <> un' ->
  cached (mkKeyrings (Public k) (Secret k) (<[un := Some f]> (skbMap k))) un'
  = cached k un'.
Proof.
  intros Hd. unfold cached. cbn [skbMap].
  rewrite lookup_insert_ne; [reflexivity|exact Hd].
Qed.

Lemma cached_insert_eq (k : Keyrings SKB) (un : string)
  (f : SKBKeyringFile SKB) :
  cached (mkKeyrings (Public k) (Secret k) (<[un := Some f]> (skbMap k))) un
  = Some f.
Proof. unfold cached. cbn [skbMap]. rewrite lookup_insert_eq. reflexivity. Qed.

(** A load that fails with anything but "does not exist": the error is
    returned and nothing is cached, so the next call loads again. *)
Lemma LoadSKBKeyring_hard_error (k : Keyrings SKB) (un : string) (e : error) :
  un <> "" -> cached k un = None ->
  skb_load_error d G_Env un = Some e ->
  os_IsNotExist (Some e) = false ->
  LoadSKBKeyring d G_Env k un
  = ((Some (NewSKBKeyringFile (SKBFilenameForUser G_Env un)), Some e), k,
     [EvLock; EvMapRead un; EvSKBLoad (SKBFilenameForUser G_Env un);
      EvUnlock]).
Proof.
  intros Hne Hc He Hno.
  rewrite (LoadSKBKeyring_miss d G_Env k un Hne Hc).
  rewrite (skb_loaded_failed d G_Env un e He), He.
  unfold cacheable. rewrite Hno. reflexivity.
Qed.

(** A load that fails because the file does not exist: the new, empty
    file is cached and no error is returned. *)
Lemma LoadSKBKeyring_not_exist (k : Keyrings SKB) (un : string) (e : error) :
  un <> "" -> cached k un = None ->
  skb_load_error d G_Env un = Some e ->
  os_IsNotExist (Some e) = true ->
  LoadSKBKeyring d G_Env k un
  = ((Some (NewSKBKeyringFile (SKBFilenameForUser G_Env un)), None),
     mkKeyrings (Public k) (Secret k)
       (<[un := Some (NewSKBKeyringFile (SKBFilenameForUser G_Env un))]>
          (skbMap k)),
     [EvLock; EvMapRead un; EvSKBLoad (SKBFilenameForUser G_Env un);
      EvMapWrite un; EvUnlock]).
Proof.
  intros Hne Hc He Hno.
  rewrite (LoadSKBKeyring_miss d G_Env k un Hne Hc).
  rewrite (skb_loaded_failed d G_Env un e He), He.
  unfold cacheable. rewrite Hno, orb_true_r. reflexivity.
Qed.

(** A call changes the map at most at its own username, and never an
    entry that is cached. *)
Lemma LoadSKBKeyring_frame (k : Keyrings SKB) (un : string) :
  (forall un' f, cached k un' = Some f ->
     cached (snd (fst (LoadSKBKeyring d G_Env k un))) un' = Some f)
  /\ (forall un', un' <> un ->
       skbMap (snd (fst (LoadSKBKeyring d G_Env k un))) !! un'
       = skbMap k !! un')
  /\ size (skbMap (snd (fst (LoadSKBKeyring d G_Env k un))))
     <= S (size (skbMap k)).
Proof.
  destruct (LoadSKBKeyring_state d G_Env k un) as [->|(Hne & Hc & ->)].
  - repeat split; auto.
  - split; [|split].
    + intros un' f Hf. destruct (decide (un = un')) as [<-|Hd];
        [congruence|]. rewrite cached_insert_ne; assumption.
    + intros un' Hd. cbn [skbMap]. apply lookup_insert_ne. congruence.
    + cbn [skbMap]. rewrite map_size_insert.
      destruct (skbMap k !! un); unfold id; lia.
Qed.

(** C5: for a username that is not empty and not cached.  If the load
    fails with an error other than "does not exist", that error is
    returned, the aggregate is unchanged, the map has no cached file for
    the username (and no entry if it had none), and the next call, on
    whatever disk, attempts the load again.  If the load fails because
    the file does not exist, no error is returned, the new, empty file is
    returned and cached, and the next call returns it without any load.
    In every case the call keeps every cached file, changes no entry of
    another username, and adds at most one entry. *)
Theorem LoadSKBKeyring_caching (k : Keyrings SKB) (un : string) :
  un <> "" ->
  cached k un = None ->
  let path := SKBFilenameForUser G_Env un in
  let k' := snd (fst (LoadSKBKeyring d G_Env k un)) in
  (forall e,
     skb_load_error d G_Env un = Some e ->
     os_IsNotExist (Some e) = false ->
     snd (fst (fst (LoadSKBKeyring d G_Env k un))) = Some e
     /\ k' = k
     /\ cached k' un = None
     /\ (skbMap k !! un = None -> skbMap k' !! un = None)
     /\ forall d2 : Disk File SKB,
         In (EvSKBLoad path) (snd (LoadSKBKeyring d2 G_Env k' un)))
  /\ (forall e,
       skb_load_error d G_Env un = Some e ->
       os_IsNotExist (Some e) = true ->
       fst (fst (LoadSKBKeyring d G_Env k un))
         = (Some (NewSKBKeyringFile path), None)
       /\ skbMap k' !! un = Some (Some (NewSKBKeyringFile path))
       /\ Blocks (NewSKBKeyringFile (SKB:=SKB) path) = []
       /\ forall d2 : Disk File SKB,
           LoadSKBKeyring d2 G_Env k' un
           = ((Some (NewSKBKeyringFile path), None), k',
              [EvLock; EvMapRead un; EvUnlock]))
  /\ ((forall un' f, cached k un' = Some f -> cached k' un' = Some f)
      /\ (forall un', un' <> un -> skbMap k' !! un' = skbMap k !! un')
      /\ size (skbMap k') <= S (size (skbMap k))).
Proof.
  intros Hne Hc path k'. split; [|split].
  - intros e He Hno. subst k'.
    rewrite (LoadSKBKeyring_hard_error k un e Hne Hc He Hno). cbn [fst snd].
    split; [reflexivity|]. split; [reflexivity|]. split; [exact Hc|].
    split; [tauto|].
    intros d2. rewrite (LoadSKBKeyring_miss d2 G_Env k un Hne Hc).
    destruct (cacheable _); cbn [snd]; simpl; tauto.
  - intros e He Hex. subst k'.
    rewrite (LoadSKBKeyring_not_exist k un e Hne Hc He Hex). cbn [fst snd].
    split; [reflexivity|]. split; [apply lookup_insert_eq|].
    split; [reflexivity|].
    intros d2. apply LoadSKBKeyring_hit. apply cached_insert_eq.
  - subst k'. apply LoadSKBKeyring_frame.
Qed.

End Caching.

(** With alice cached: bob's keyring cannot be read, the error comes
    back and bob is not cached; carol has no keyring, and is cached with
    an empty one. *)
Lemma LoadSKBKeyring_caching_witness :
  (snd (fst (fst (LoadSKBKeyring disk_sample env_sample
                    keyrings_after_alice "bob")))
     = Some (ErrOther "file is locked")
   /\ skbMap keyrings_after_bob !! "bob" = None)
  /\ (fst (fst (LoadSKBKeyring disk_sample env_sample
                  keyrings_after_bob "carol"))
       = (Some (mkSKBKeyringFile "/keys/carol.skb" []), None)
     /\ skbMap keyrings_after_carol !! "carol"
        = Some (Some (mkSKBKeyringFile "/keys/carol.skb" []))).
Proof.
  split.
  - destruct (LoadSKBKeyring_caching disk_sample env_sample
                keyrings_after_alice "bob") as (H & _ & _);
      [discriminate|vm_compute; reflexivity|].
    destruct (H (ErrOther "file is locked")) as (He & _ & _ & Hm & _);
      [vm_compute; reflexivity|reflexivity|].
    split; [exact He|]. apply Hm. vm_compute. reflexivity.
  - destruct (LoadSKBKeyring_caching disk_sample env_sample
                keyrings_after_bob "carol") as (_ & H & _);
      [discriminate|vm_compute; reflexivity|].
    destruct (H (ErrNotExist "/keys/carol.skb")) as (Hr & Hm & _);
      [vm_compute; reflexivity|reflexivity|].
    split; [exact Hr|exact Hm].
Defined.

(** ** The order of the retrieval steps *)

Section Policy.

Context {File SKB KID User ComputedKeyFamily : Type}.
Variable c : Collaborators SKB KID User ComputedKeyFamily.
Variable d : Disk File SKB.
Variable G_Env : Env.

Lemma none_of_app (p : Event -> bool) (t1 t2 : list Event) :
  none_of p (t1 ++ t2) = (none_of p t1 && none_of p t2)%bool.
Proof. apply forallb_app. Qed.

(** The trace of [LoadSKBKeyring] has only lock, map and load events. *)
Lemma LoadSKBKeyring_trace_none (p : Event -> bool) (k : Keyrings SKB)
  (un : string) :
  p EvLock = false -> p EvUnlock = false ->
  (forall u, p (EvMapRead u) = false) ->
  (forall u, p (EvMapWrite u) = false) ->
  (forall path, p (EvSKBLoad path) = false) ->
  none_of p (snd (LoadSKBKeyring d G_Env k un)) = true.
Proof.
  intros HL HU HR HW HS. unfold LoadSKBKeyring, none_of.
  destruct (skbMap k !! un) as [[f|]|];
    try (destruct (Nat.eqb (String.length un) 0));
    try (destruct (SKBKeyringFile_LoadAndIndex d _) as [f' e];
         destruct (negb (not_nil e) || os_IsNotExist e)%bool);
    cbn [snd forallb]; rewrite ?HL, ?HU, ?HR, ?HW, ?HS; reflexivity.
Qed.

(** The local lookup when the device key is wanted and found. *)
Lemma GetLockedLocalSecretKey_device (k : Keyrings SKB)
  (ska : SecretKeyArg User) (me : User) keyring ckf kid skb :
  UseDeviceKey ska = true ->
  fst (fst (LoadSKBKeyring d G_Env k (user_name c me)))
    = (Some keyring, None) ->
  GetComputedKeyFamily c me = Some ckf ->
  GetActiveSibkeyKidForCurrentDevice c ckf = (Some kid, None) ->
  LookupByKid c keyring kid = Some skb ->
  GetLockedLocalSecretKey c d G_Env k ska me
  = (Some skb,
     snd (fst (LoadSKBKeyring d G_Env k (user_name c me))),
     snd (LoadSKBKeyring d G_Env k (user_name c me))
       ++ [EvGetComputedKeyFamily; EvGetDeviceKid; EvLookupByKid]).
Proof.
  intros Hdev Hload Hckf Hkid Hlook. unfold GetLockedLocalSecretKey.
  rewrite (LoadSKBKeyring_eta d G_Env k (user_name c me)), Hload, Hckf.
  unfold device_key_step. rewrite Hdev, Hkid, Hlook. reflexivity.
Qed.

Lemma GetSecretKeyLocked_for_device (k : Keyrings SKB)
  (ska : SecretKeyArg User) (me : User) keyring ckf kid skb :
  UseDeviceKey ska = true ->
  fst (fst (LoadSKBKeyring d G_Env k (user_name c me)))
    = (Some keyring, None) ->
  GetComputedKeyFamily c me = Some ckf ->
  GetActiveSibkeyKidForCurrentDevice c ckf = (Some kid, None) ->
  LookupByKid c keyring kid = Some skb ->
  GetSecretKeyLocked_for c d G_Env k ska me
  = (mkLocked (Some skb) "" None,
     snd (fst (LoadSKBKeyring d G_Env k (user_name c me))),
     snd (LoadSKBKeyring d G_Env k (user_name c me))
       ++ [EvGetComputedKeyFamily; EvGetDeviceKid; EvLookupByKid]).
Proof.
  intros Hdev Hload Hckf Hkid Hlook. unfold GetSecretKeyLocked_for.
  rewrite (GetLockedLocalSecretKey_device k ska me keyring ckf kid skb
             Hdev Hload Hckf Hkid Hlook).
  reflexivity.
Qed.

(** C1, as amended: for a request with [All] set, whose subject has a
    key identifier for the current device that the per-user keyring
    knows, [GetSecretKeyLocked] returns the key that [LookupByKid] finds,
    with no error and with the empty provenance string; the trace ends
    with the device-key lookup, and neither the synced key nor the local
    search is asked for, whatever they would return. *)
Theorem GetSecretKeyLocked_device_key_first (k : Keyrings SKB)
  (ska : SecretKeyArg User) (me : User) (keyring : SKBKeyringFile SKB)
  (ckf : ComputedKeyFamily) (kid : KID) (skb : SKB) :
  All ska = true ->
  subject c ska = Some me ->
  fst (fst (LoadSKBKeyring d G_Env k (user_name c me)))
    = (Some keyring, None) ->
  GetComputedKeyFamily c me = Some ckf ->
  GetActiveSibkeyKidForCurrentDevice c ckf = (Some kid, None) ->
  LookupByKid c keyring kid = Some skb ->
  fst (fst (GetSecretKeyLocked c d G_Env k ska)) = mkLocked (Some skb) "" None
  /\ snd (GetSecretKeyLocked c d G_Env k ska)
     = match Me ska with Some _ => [] | None => [EvLoadMe] end
       ++ snd (LoadSKBKeyring d G_Env k (user_name c me))
       ++ [EvGetComputedKeyFamily; EvGetDeviceKid; EvLookupByKid]
  /\ none_of is_synced_or_search (snd (GetSecretKeyLocked c d G_Env k ska))
     = true.
Proof.
  intros Hall Hsubj Hload Hckf Hkid Hlook.
  assert (Htr : none_of is_synced_or_search
                  (snd (LoadSKBKeyring d G_Env k (user_name c me))
                     ++ [EvGetComputedKeyFamily; EvGetDeviceKid;
                         EvLookupByKid]) = true).
  { rewrite none_of_app, LoadSKBKeyring_trace_none; reflexivity. }
  unfold subject in Hsubj. unfold GetSecretKeyLocked.
  destruct (Me ska) as [me0|].
  - injection Hsubj as ->.
    rewrite (GetSecretKeyLocked_for_device k ska me keyring ckf kid skb);
      try assumption.
    + cbn [fst snd app]. repeat split; [exact Htr].
    + unfold UseDeviceKey. rewrite Hall. reflexivity.
  - destruct (LoadMe c) as [me0|e]; [|discriminate].
    injection Hsubj as ->.
    rewrite (GetSecretKeyLocked_for_device k _ me keyring ckf kid skb);
      try assumption.
    + cbn [fst snd app]. repeat split; [exact Htr].
    + unfold UseDeviceKey. cbn [All]. rewrite Hall. reflexivity.
Qed.

(** The local lookup when neither the device key nor the local search
    is wanted. *)
Lemma GetLockedLocalSecretKey_not_wanted (k : Keyrings SKB)
  (ska : SecretKeyArg User) (me : User) :
  UseDeviceKey ska = false -> SearchForKey ska = false ->
  fst (fst (GetLockedLocalSecretKey c d G_Env k ska me)) = None
  /\ none_of is_device_event
       (snd (GetLockedLocalSecretKey c d G_Env k ska me)) = true
  /\ none_of is_synced_or_search
       (snd (GetLockedLocalSecretKey c d G_Env k ska me)) = true.
Proof.
  intros Hdev Hsearch.
  pose proof (LoadSKBKeyring_trace_none is_device_event k (user_name c me)
                eq_refl eq_refl (fun _ => eq_refl) (fun _ => eq_refl)
                (fun _ => eq_refl)) as T1.
  pose proof (LoadSKBKeyring_trace_none is_synced_or_search k (user_name c me)
                eq_refl eq_refl (fun _ => eq_refl) (fun _ => eq_refl)
                (fun _ => eq_refl)) as T2.
  unfold GetLockedLocalSecretKey.
  destruct (LoadSKBKeyring d G_Env k (user_name c me))
    as [[[keyring e] k'] tr]. cbn [snd] in T1, T2.
  destruct e as [e|]; [cbn [fst snd]; auto|].
  destruct keyring as [keyring|]; [|cbn [fst snd]; auto].
  destruct (GetComputedKeyFamily c me) as [ckf|].
  - unfold device_key_step. rewrite Hdev, Hsearch. cbn [negb fst snd].
    rewrite app_nil_r, !none_of_app, T1, T2. auto.
  - cbn [fst snd]. rewrite !none_of_app, T1, T2. auto.
Qed.

Lemma GetSecretKeyLocked_for_synced_only (k : Keyrings SKB)
  (ska : SecretKeyArg User) (me : User) :
  UseDeviceKey ska = false -> SearchForKey ska = false ->
  UseSyncedPGPKey ska = true ->
  GetSyncedSecretKey c me = (None, None) ->
  fst (fst (GetSecretKeyLocked_for c d G_Env k ska me))
    = mkLocked None "" (Some NoSecretKeyError)
  /\ none_of is_device_event
       (snd (GetSecretKeyLocked_for c d G_Env k ska me)) = true
  /\ In EvGetSynced (snd (GetSecretKeyLocked_for c d G_Env k ska me)).
Proof.
  intros Hdev Hsearch Hsync Hnone.
  destruct (GetLockedLocalSecretKey_not_wanted k ska me Hdev Hsearch)
    as (Hret & Htr & _).
  unfold GetSecretKeyLocked_for.
  destruct (GetLockedLocalSecretKey c d G_Env k ska me) as [[local k'] tr].
  cbn [fst snd] in Hret, Htr. subst local.
  rewrite Hsync, Hnone. cbn [negb fst snd].
  split; [reflexivity|]. split.
  - rewrite none_of_app, Htr. reflexivity.
  - apply in_or_app. right. left. reflexivity.
Qed.

(** C3: for a request that sets the synced-key flag alone, whose subject
    has no synced key, [GetSecretKeyLocked] returns no key and
    [NoSecretKeyError]; the synced key is asked for, and the device key
    is never consulted, whether the subject has one or not. *)
Theorem GetSecretKeyLocked_synced_only (k : Keyrings SKB)
  (ska : SecretKeyArg User) (me : User) :
  All ska = false -> DeviceKey ska = false -> SearchKey ska = false ->
  SyncedPGPKey ska = true ->
  subject c ska = Some me ->
  GetSyncedSecretKey c me = (None, None) ->
  fst (fst (GetSecretKeyLocked c d G_Env k ska))
    = mkLocked None "" (Some NoSecretKeyError)
  /\ none_of is_device_event (snd (GetSecretKeyLocked c d G_Env k ska)) = true
  /\ In EvGetSynced (snd (GetSecretKeyLocked c d G_Env k ska)).
Proof.
  intros Hall Hdev Hsearch Hsync Hsubj Hnone.
  unfold subject in Hsubj. unfold GetSecretKeyLocked.
  destruct (Me ska) as [me0|].
  - injection Hsubj as ->.
    apply GetSecretKeyLocked_for_synced_only; try assumption.
    + unfold UseDeviceKey. rewrite Hall, Hdev. reflexivity.
    + unfold SearchForKey. rewrite Hall, Hsearch. reflexivity.
    + unfold UseSyncedPGPKey. rewrite Hsync. apply orb_true_r.
  - destruct (LoadMe c) as [me0|e]; [|discriminate].
    injection Hsubj as ->.
    destruct (GetSecretKeyLocked_for_synced_only k
                (mkSecretKeyArg (All ska) (DeviceKey ska) (SyncedPGPKey ska)
                   (SearchKey ska) (Reason ska) (Some me)) me)
      as (Hr & Ht & Hi); try assumption.
    + unfold UseDeviceKey. cbn [All DeviceKey]. rewrite Hall, Hdev.
      reflexivity.
    + unfold SearchForKey. cbn [All SearchKey]. rewrite Hall, Hsearch.
      reflexivity.
    + unfold UseSyncedPGPKey. cbn [All SyncedPGPKey]. rewrite Hsync.
      apply orb_true_r.
    + destruct (GetSecretKeyLocked_for _ _ _ _ _ _) as [[r k'] tr].
      cbn [fst snd] in *. split; [exact Hr|]. split; [exact Ht|].
      right. exact Hi.
Qed.

End Policy.

(** Alice has a device key, a synced key (99) and a key that the local
    search finds (8).  With every flag on, the key of the device-key
    lookup (7) comes back, and the trace stops at that lookup. *)
Lemma GetSecretKeyLocked_device_key_first_witness :
  fst (fst (GetSecretKeyLocked collab_synced disk_sample env_sample
              keyrings_new ska_all))
    = mkLocked (Some 7) "" None
  /\ snd (GetSecretKeyLocked collab_synced disk_sample env_sample
            keyrings_new ska_all)
     = [EvLock; EvMapRead "alice"; EvSKBLoad "/keys/alice.skb";
        EvMapWrite "alice"; EvUnlock;
        EvGetComputedKeyFamily; EvGetDeviceKid; EvLookupByKid].
Proof.
  destruct (GetSecretKeyLocked_device_key_first collab_synced disk_sample
              env_sample keyrings_new ska_all "alice"
              (mkSKBKeyringFile "/keys/alice.skb" [7; 8]) 1 [1%N; 2%N; 3%N] 7)
    as (Hr & Ht & _); try reflexivity.
  split; [exact Hr|]. rewrite Ht. vm_compute. reflexivity.
Defined.

(** C1, as stated, fails for alice: the provenance that comes back with
    her device key is the empty string. *)
Lemma GetSecretKeyLocked_device_key_unnamed :
  ~ device_key_provenance collab_synced disk_sample env_sample
      keyrings_new ska_all.
Proof.
  intros H.
  destruct (H "alice" (mkSKBKeyringFile "/keys/alice.skb" [7; 8]) 1
              [1%N; 2%N; 3%N] 7 99 8) as (_ & Hwhich & _);
    try reflexivity.
  vm_compute in Hwhich. discriminate Hwhich.
Qed.

(** Alice has a device key but no synced key; asked for the synced key
    alone, the call fails with [NoSecretKeyError] and its trace has no
    device-key event. *)
Lemma GetSecretKeyLocked_synced_only_witness :
  LookupByKid collab_unsynced (mkSKBKeyringFile "/keys/alice.skb" [7; 8])
    [1%N; 2%N; 3%N] = Some 7
  /\ fst (fst (GetSecretKeyLocked collab_unsynced disk_sample env_sample
                 keyrings_new ska_synced_only))
     = mkLocked None "" (Some NoSecretKeyError)
  /\ none_of is_device_event
       (snd (GetSecretKeyLocked collab_unsynced disk_sample env_sample
               keyrings_new ska_synced_only)) = true.
Proof.
  split; [reflexivity|].
  destruct (GetSecretKeyLocked_synced_only collab_unsynced disk_sample
              env_sample keyrings_new ska_synced_only "alice")
    as (Hr & Ht & _); try reflexivity.
  split; [exact Hr|exact Ht].
Defined.

(** ** The file name of the per-user secret keyring *)

Lemma has_token_tail c s :
  has_token (String c s) = false -> has_token s = false.
Proof.
  destruct s as [|c' s'']; [reflexivity|].
  cbn [has_token]. destruct (Ascii.eqb c "%" && Ascii.eqb c' "u")%bool;
    [discriminate|]. intros H. exact H.
Qed.

Lemma replace_token_no_token un s :
  has_token s = false -> replace_token un s = s.
Proof.
  induction s as [|c s IH]; [reflexivity|].
  intros H. pose proof (has_token_tail c s H) as Ht.
  destruct s as [|c' s'']; [reflexivity|].
  cbn [has_token] in H. cbn [replace_token].
  destruct (Ascii.eqb c "%" && Ascii.eqb c' "u")%bool; [discriminate|].
  f_equal. apply IH. exact Ht.
Qed.

Lemma replace_token_first un pre post :
  has_token pre = false ->
  replace_token un (pre ++ "%u" ++ post)%string
  = (pre ++ un ++ replace_token un post)%string.
Proof.
  induction pre as [|c pre IH]; intros H.
  - reflexivity.
  - pose proof (has_token_tail c pre H) as Ht.
    change ((String c pre ++ "%u" ++ post)%string)
      with (String c (pre ++ "%u" ++ post)%string).
    destruct pre as [|c' pre'].
    + cbn [String.append replace_token].
      destruct (Ascii.eqb c "%"); cbn [andb Ascii.eqb Bool.eqb].
      * reflexivity.
      * reflexivity.
    + change ((String c' pre' ++ "%u" ++ post)%string)
        with (String c' (pre' ++ "%u" ++ post)%string) in *.
      cbn [has_token] in H.
      change (replace_token un
                (String c (String c' (pre' ++ "%u" ++ post)%string)))
        with (if (Ascii.eqb c "%" && Ascii.eqb c' "u")%bool
              then (un ++ replace_token un (pre' ++ "%u" ++ post))%string
              else String c (replace_token un
                               (String c' (pre' ++ "%u" ++ post)%string))).
      destruct (Ascii.eqb c "%" && Ascii.eqb c' "u")%bool; [discriminate|].
      rewrite (IH Ht). reflexivity.
Qed.

Lemma has_token_append pre post :
  has_token (pre ++ "%u" ++ post)%string = true.
Proof.
  induction pre as [|c pre IH]; [reflexivity|].
  change ((String c pre ++ "%u" ++ post)%string)
    with (String c (pre ++ "%u" ++ post)%string).
  destruct (pre ++ "%u" ++ post)%string as [|c' s''] eqn:E;
    [discriminate IH|].
  cbn [has_token].
  destruct (Ascii.eqb c "%" && Ascii.eqb c' "u")%bool; [reflexivity|exact IH].
Qed.

Lemma has_token_first s :
  has_token s = true ->
  exists pre post,
    s = (pre ++ "%u" ++ post)%string /\ has_token pre = false.
Proof.
  induction s as [|c s IH]; [discriminate|].
  destruct s as [|c' s'']; [discriminate|].
  cbn [has_token].
  destruct (Ascii.eqb c "%") eqn:Ec; cbn [andb];
    [destruct (Ascii.eqb c' "u") eqn:Ec'|].
  - intros _. apply Ascii.eqb_eq in Ec, Ec'. subst c c'.
    exists "", s''. split; reflexivity.
  - intros H. destruct (IH H) as (pre & post & Hs & Hpre).
    exists (String c pre), post. split; [rewrite Hs; reflexivity|].
    destruct pre as [|p pre']; [reflexivity|].
    cbn in Hs. injection Hs as <- _.
    cbn [has_token]. rewrite Ec, Ec'. exact Hpre.
  - intros H. destruct (IH H) as (pre & post & Hs & Hpre).
    exists (String c pre), post. split; [rewrite Hs; reflexivity|].
    destruct pre as [|p pre']; [reflexivity|].
    cbn in Hs. injection Hs as <- _.
    cbn [has_token]. rewrite Ec. exact Hpre.
Qed.

Lemma count_tokens_positive s : has_token s = true -> 0 < count_tokens s.
Proof.
  induction s as [|c s IH]; [discriminate|].
  destruct s as [|c' s'']; [discriminate|].
  cbn [has_token count_tokens].
  destruct (Ascii.eqb c "%" && Ascii.eqb c' "u")%bool; [lia|exact IH].
Qed.

Lemma length_append (a b : string) :
  String.length (a ++ b)%string = String.length a + String.length b.
Proof.
  induction a as [|c a IH]; simpl; [reflexivity|]. f_equal. exact IH.
Qed.

Lemma replace_token_cons2 un c c' s :
  replace_token un (String c (String c' s))
  = if (Ascii.eqb c "%" && Ascii.eqb c' "u")%bool
    then (un ++ replace_token un s)%string
    else String c (replace_token un (String c' s)).
Proof. reflexivity. Qed.

Lemma count_tokens_cons2 c c' s :
  count_tokens (String c (String c' s))
  = if (Ascii.eqb c "%" && Ascii.eqb c' "u")%bool
    then S (count_tokens s)
    else count_tokens (String c' s).
Proof. reflexivity. Qed.

Lemma replace_token_length_both un s :
  (String.length (replace_token un s) + 2 * count_tokens s
   = String.length s + count_tokens s * String.length un)
  /\ forall c,
      String.length (replace_token un (String c s))
      + 2 * count_tokens (String c s)
      = String.length (String c s)
        + count_tokens (String c s) * String.length un.
Proof.
  induction s as [|c0 s0 [IH1 IH2]].
  - split; [reflexivity|]. intros c. cbn. lia.
  - split; [apply IH2|]. intros c.
    rewrite replace_token_cons2, count_tokens_cons2.
    destruct (Ascii.eqb c "%" && Ascii.eqb c0 "u")%bool.
    + rewrite length_append. cbn [String.length]. nia.
    + specialize (IH2 c0).
      change (String.length (String c (replace_token un (String c0 s0))))
        with (S (String.length (replace_token un (String c0 s0)))).
      change (String.length (String c (String c0 s0)))
        with (S (String.length (String c0 s0))).
      lia.
Qed.

Lemma replace_token_length un s :
  String.length (replace_token un s) + 2 * count_tokens s
  = String.length s + count_tokens s * String.length un.
Proof. apply replace_token_length_both. Qed.

Lemma append_cancel_l (p a b : string) :
  (p ++ a)%string = (p ++ b)%string -> a = b.
Proof.
  induction p as [|c p IH]; cbn; [tauto|]. intros [= H]. apply IH. exact H.
Qed.

Lemma append_same_length (a b x y : string) :
  String.length a = String.length b ->
  (a ++ x)%string = (b ++ y)%string -> a = b.
Proof.
  revert b. induction a as [|c a IH]; intros [|c' b] Hl H;
    try discriminate Hl; [reflexivity|].
  cbn in H, Hl. injection H as -> H. f_equal. apply (IH b); [lia|exact H].
Qed.

(** X1: for a template whose first token is preceded by [pre] and followed
    by [post], the file name of a user is [pre], the username, and
    [post] with its own tokens replaced; it is [pre], the username and
    [post] when [post] has no token. *)
Theorem SKBFilenameForUser_substitutes (G_Env : Env) (un pre post : string) :
  GetSecretKeyringTemplate G_Env = (pre ++ "%u" ++ post)%string ->
  has_token pre = false ->
  SKBFilenameForUser G_Env un = (pre ++ un ++ replace_token un post)%string
  /\ (has_token post = false ->
      SKBFilenameForUser G_Env un = (pre ++ un ++ post)%string).
Proof.
  intros Ht Hpre.
  assert (H : SKBFilenameForUser G_Env un
              = (pre ++ un ++ replace_token un post)%string).
  { unfold SKBFilenameForUser. rewrite Ht, has_token_append. cbn [negb].
    apply replace_token_first. exact Hpre. }
  split; [exact H|]. intros Hpost. rewrite H.
  rewrite (replace_token_no_token un post Hpost). reflexivity.
Qed.

(** X2: when the template contains the token, two users with the same
    file name are the same user. *)
Theorem SKBFilenameForUser_injective (G_Env : Env) (u1 u2 : string) :
  has_token (GetSecretKeyringTemplate G_Env) = true ->
  SKBFilenameForUser G_Env u1 = SKBFilenameForUser G_Env u2 ->
  u1 = u2.
Proof.
  unfold SKBFilenameForUser. intros Ht. rewrite Ht. cbn [negb]. intros Heq.
  set (s := GetSecretKeyringTemplate G_Env) in *.
  pose proof (count_tokens_positive s Ht) as Hk.
  pose proof (replace_token_length u1 s) as L1.
  pose proof (replace_token_length u2 s) as L2.
  rewrite Heq in L1.
  assert (Hlen : String.length u1 = String.length u2) by nia.
  destruct (has_token_first s Ht) as (pre & post & Hs & Hpre).
  rewrite Hs in Heq.
  rewrite !(replace_token_first _ pre post Hpre) in Heq.
  apply append_cancel_l in Heq.
  exact (append_same_length _ _ _ _ Hlen Heq).
Qed.

(** ** The slices of the fan-out lookups *)

(** X3: the slice of each fan-out lookup starts with ten zero-valued
    keys and is ten longer than the per-file results, so it is never the
    empty slice that [EmptyKeyRing] returns. *)
Theorem fanout_starts_with_zero_keys {SKB} (o : OpenPGP) (k : Keyrings SKB)
  (id usage : Z) :
  (take 10 (KeysById o k id) = repeat zero_Key 10
   /\ List.length (KeysById o k id)
      = 10 + List.length
               (per_file_results
                  (fun ring => EntityList_KeysById o (Entities ring) id)
                  (Public k ++ Secret k)))
  /\ (take 10 (KeysByIdUsage o k id usage) = repeat zero_Key 10
      /\ List.length (KeysByIdUsage o k id usage)
         = 10 + List.length
                  (per_file_results
                     (fun ring =>
                        EntityList_KeysByIdUsage o (Entities ring) id usage)
                     (Public k ++ Secret k)))
  /\ (take 10 (DecryptionKeys o k) = repeat zero_Key 10
      /\ List.length (DecryptionKeys o k)
         = 10 + List.length
                  (per_file_results
                     (fun ring => EntityList_DecryptionKeys o (Entities ring))
                     (Secret k)))
  /\ KeysById o k id <> EmptyKeyRing_KeysById id
  /\ KeysByIdUsage o k id usage <> EmptyKeyRing_KeysByIdUsage id usage
  /\ DecryptionKeys o k <> EmptyKeyRing_DecryptionKeys.
Proof.
  unfold KeysById, KeysByIdUsage, DecryptionKeys.
  rewrite !append_each_spec, <- !app_assoc, <- !per_file_results_app.
  unfold make_Keys.
  repeat split; try reflexivity; try (rewrite length_app; reflexivity);
    discriminate.
Qed.

(** ** FindKey: the first file that has the key *)

Lemma FindKey_loop_hit fp secret l :
  FindKey_loop fp secret l
  = match l with
    | [] => None
    | file :: rest =>
        match hit fp secret file with
        | Some key => Some key
        | None => FindKey_loop fp secret rest
        end
    end.
Proof.
  destruct l as [|file rest]; [reflexivity|].
  cbn [FindKey_loop]. unfold hit.
  destruct (indexFingerprint file !! fp) as [[key|]|]; try reflexivity.
  destruct (negb secret || not_nil (PrivateKey key))%bool; reflexivity.
Qed.

Lemma FindKey_loop_Some fp secret l e :
  FindKey_loop fp secret l = Some e <->
  exists pre file post,
    l = pre ++ file :: post
    /\ (forall f, f ∈ pre -> hit fp secret f = None)
    /\ hit fp secret file = Some e.
Proof.
  induction l as [|a l IH]; rewrite FindKey_loop_hit.
  - split; [discriminate|]. intros (pre & file & post & H & _).
    destruct pre; discriminate H.
  - destruct (hit fp secret a) as [key|] eqn:Ha.
    + split.
      * intros [= <-]. exists [], a, l. split; [reflexivity|].
        split; [|exact Ha]. intros f Hf. apply elem_of_nil in Hf. destruct Hf.
      * intros (pre & file & post & H & Hpre & Hfile).
        destruct pre as [|b pre]; cbn in H; injection H as <- _.
        -- congruence.
        -- rewrite (Hpre a (list_elem_of_here _ _)) in Ha. discriminate Ha.
    + rewrite IH. split.
      * intros (pre & file & post & -> & Hpre & Hfile).
        exists (a :: pre), file, post. split; [reflexivity|].
        split; [|exact Hfile]. intros f Hf.
        apply elem_of_cons in Hf as [->|Hf]; [exact Ha|apply Hpre; exact Hf].
      * intros (pre & file & post & H & Hpre & Hfile).
        destruct pre as [|b pre]; cbn in H; injection H as <- ->.
        -- congruence.
        -- exists pre, file, post. split; [reflexivity|].
           split; [|exact Hfile]. intros f Hf. apply Hpre.
           apply elem_of_cons. right. exact Hf.
Qed.

Lemma FindKey_loop_None fp secret l :
  FindKey_loop fp secret l = None <->
  forall f, f ∈ l -> hit fp secret f = None.
Proof.
  induction l as [|a l IH]; rewrite FindKey_loop_hit.
  - split; [|reflexivity]. intros _ f Hf. apply elem_of_nil in Hf. destruct Hf.
  - destruct (hit fp secret a) as [key|] eqn:Ha.
    + split; [discriminate|]. intros H.
      rewrite (H a (list_elem_of_here _ _)) in Ha. discriminate Ha.
    + rewrite IH. split.
      * intros H f Hf. apply elem_of_cons in Hf as [->|Hf];
          [exact Ha|apply H; exact Hf].
      * intros H f Hf. apply H. apply elem_of_cons. right. exact Hf.
Qed.

(** X4: [FindKey] returns the entry of the first file, in the order of
    the list it searches, whose fingerprint index has an entry for the
    fingerprint that is not [nil] and, for a secret lookup, has private
    material; it returns [nil] exactly when no file has such an entry. *)
Theorem FindKey_first_match {SKB} (k : Keyrings SKB) (fp : PgpFingerprint)
  (secret : bool) :
  (forall e,
     FindKey k fp secret = Some e <->
     exists pre file post,
       searched k secret = pre ++ file :: post
       /\ (forall f, f ∈ pre -> hit fp secret f = None)
       /\ hit fp secret file = Some e)
  /\ (FindKey k fp secret = None <->
      forall f, f ∈ searched k secret -> hit fp secret f = None).
Proof.
  unfold FindKey, searched. split.
  - intros e. apply FindKey_loop_Some.
  - apply FindKey_loop_None.
Qed.

(** X5: on a new aggregate, before anything is loaded, [FindKey] finds
    nothing. *)
Theorem FindKey_before_Load {SKB} (e : Env) (usage : Usage)
  (fp : PgpFingerprint) (secret : bool) :
  FindKey (NewKeyrings (SKB:=SKB) e usage) fp secret = None.
Proof.
  unfold FindKey. apply FindKey_loop_None.
  intros f Hf. unfold hit.
  assert (Hix : indexFingerprint f = ∅).
  { unfold NewKeyrings in Hf.
    destruct (GpgKeyring usage), secret; cbn in Hf;
      try (apply elem_of_nil in Hf; destruct Hf);
      unfold MakeKeyrings in Hf; apply list_elem_of_In, in_map_iff in Hf;
      destruct Hf as (fn & <- & _); reflexivity. }
  rewrite Hix, lookup_empty. reflexivity.
Qed.

(** ** Index: what is indexed *)

Lemma last_such_is_Some p es :
  is_Some (last_such p es) <-> exists e, e ∈ es /\ p e = true.
Proof.
  split.
  - intros [e He]. exists e. apply (last_such_Some _ _ _ He).
  - intros (e & Hin & Hp). destruct (last_such p es) as [e'|] eqn:E;
      [eexists; reflexivity|].
    rewrite (last_such_None _ _ E e Hin) in Hp. discriminate Hp.
Qed.

(** X6: after [Index], an identifier (a fingerprint) is indexed exactly
    when some entity of the file carries a key with it, and no entry is
    [nil]. *)
Theorem Index_domain (k : KeyringFile) :
  let k' := fst (KeyringFile_Index k) in
  (forall id,
     is_Some (indexId k' !! id)
     <-> exists e, e ∈ Entities k /\ carries_id id e = true)
  /\ (forall fp,
       is_Some (indexFingerprint k' !! fp)
       <-> exists e, e ∈ Entities k /\ carries_fp fp e = true)
  /\ (forall id, indexId k' !! id <> Some None)
  /\ (forall fp, indexFingerprint k' !! fp <> Some None).
Proof.
  intros k'. subst k'. repeat split.
  - destruct (Index_lookup k id []) as [H _]. rewrite H.
    rewrite <- last_such_is_Some. intros [v Hv].
    destruct (last_such _ _); [eexists; reflexivity|discriminate Hv].
  - destruct (Index_lookup k id []) as [H _]. rewrite H.
    intros He. apply last_such_is_Some in He as [e ->]. eexists; reflexivity.
  - destruct (Index_lookup k "" fp) as [_ H]. rewrite H.
    rewrite <- last_such_is_Some. intros [v Hv].
    destruct (last_such _ _); [eexists; reflexivity|discriminate Hv].
  - destruct (Index_lookup k "" fp) as [_ H]. rewrite H.
    intros He. apply last_such_is_Some in He as [e ->]. eexists; reflexivity.
  - intros id. destruct (Index_lookup k id []) as [H _]. rewrite H.
    destruct (last_such _ _); discriminate.
  - intros fp. destruct (Index_lookup k "" fp) as [_ H]. rewrite H.
    destruct (last_such _ _); discriminate.
Qed.

(** ** Loading and indexing one file *)

Section OneFile.

Context {File SKB : Type}.
Variable d : Disk File SKB.

(** The three ways [LoadAndIndex] can end. *)
Lemma LoadAndIndex_cases (k : KeyringFile) :
  (exists e, KeyringFile_LoadAndIndex d k = (k, Some e, [EvOpen (filename k)]))
  \/ (exists el e,
        KeyringFile_LoadAndIndex d k
        = (mkKeyringFile (filename k) el (isPublic k)
             (indexId k) (indexFingerprint k),
           Some e, [EvOpen (filename k); EvReadKeyRing (filename k)]))
  \/ (exists el tr,
        KeyringFile_LoadAndIndex d k
        = (fst (KeyringFile_Index
                  (mkKeyringFile (filename k) el (isPublic k)
                     (indexId k) (indexFingerprint k))),
           None, tr)).
Proof.
  unfold KeyringFile_LoadAndIndex, KeyringFile_Load, Load_parse.
  destruct (os_Open d (filename k)) as [file err].
  destruct (os_IsNotExist err) eqn:Hne.
  - destruct file as [f|].
    + destruct (openpgp_ReadKeyRing d f) as [el [e|]].
      * right. left. exists el, e. reflexivity.
      * right. right. eexists el, _. reflexivity.
    + right. right. exists (Entities k). eexists. destruct k. reflexivity.
  - destruct err as [e|].
    + left. exists e. reflexivity.
    + destruct file as [f|].
      * destruct (openpgp_ReadKeyRing d f) as [el [e|]].
        -- right. left. exists el, e. reflexivity.
        -- right. right. eexists el, _. reflexivity.
      * right. right. exists (Entities k). eexists. destruct k. reflexivity.
Qed.

Lemma loaded_filename (k : KeyringFile) :
  filename (loaded d k) = filename k /\ isPublic (loaded d k) = isPublic k.
Proof.
  unfold loaded.
  destruct (LoadAndIndex_cases k) as [(e & ->)|[(el & e & ->)|(el & tr & ->)]];
    split; reflexivity.
Qed.

Lemma loaded_ok_indexed (k : KeyringFile) :
  load_error d k = None ->
  loaded d k = fst (KeyringFile_Index (loaded d k)).
Proof.
  unfold load_error, loaded.
  destruct (LoadAndIndex_cases k) as [(e & ->)|[(el & e & ->)|(el & tr & ->)]];
    cbn [fst snd]; try discriminate. reflexivity.
Qed.

Lemma loaded_failed_indexes (k : KeyringFile) :
  load_error d k <> None ->
  indexId (loaded d k) = indexId k
  /\ indexFingerprint (loaded d k) = indexFingerprint k.
Proof.
  unfold load_error, loaded.
  destruct (LoadAndIndex_cases k) as [(e & ->)|[(el & e & ->)|(el & tr & ->)]];
    cbn [fst snd]; try (split; reflexivity). congruence.
Qed.

Lemma Index_index_carries (k : KeyringFile) :
  index_carries (fst (KeyringFile_Index k)).
Proof.
  split.
  - intros id v Hv. destruct (Index_lookup k id []) as [H _].
    rewrite H in Hv. destruct (last_such _ _) as [e|] eqn:E;
      [|discriminate Hv]. injection Hv as <-. exists e. split; [reflexivity|].
    apply (last_such_Some _ _ _ E).
  - intros fp v Hv. destruct (Index_lookup k "" fp) as [_ H].
    rewrite H in Hv. destruct (last_such _ _) as [e|] eqn:E;
      [|discriminate Hv]. injection Hv as <-. exists e. split; [reflexivity|].
    apply (last_such_Some _ _ _ E).
Qed.

Lemma loaded_index_carries (k : KeyringFile) :
  index_carries k -> index_carries (loaded d k).
Proof.
  intros Hk. destruct (load_error d k) as [e|] eqn:E.
  - assert (Hne : load_error d k <> None) by congruence.
    destruct (loaded_failed_indexes k Hne) as [Hi Hf].
    unfold index_carries. rewrite Hi, Hf. exact Hk.
  - rewrite (loaded_ok_indexed k E). apply Index_index_carries.
Qed.

Lemma loaded_ok_lookup (k : KeyringFile) :
  load_error d k = None ->
  (forall id,
     indexId (loaded d k) !! id
     = Some <$> last_such (carries_id id) (Entities (loaded d k)))
  /\ (forall fp,
       indexFingerprint (loaded d k) !! fp
       = Some <$> last_such (carries_fp fp) (Entities (loaded d k))).
Proof.
  intros Hok. rewrite (loaded_ok_indexed k Hok).
  split; [intros id|intros fp].
  - apply (proj1 (Index_lookup (loaded d k) id [])).
  - apply (proj2 (Index_lookup (loaded d k) "" fp)).
Qed.


(** Loading again from the same disk changes nothing more. *)
Lemma LoadAndIndex_again (k : KeyringFile) :
  KeyringFile_LoadAndIndex d (loaded d k)
  = (loaded d k, load_error d k, load_trace d k).
Proof.
  unfold loaded, load_error, load_trace.
  unfold KeyringFile_LoadAndIndex, KeyringFile_Load, Load_parse.
  destruct (os_Open d (filename k)) as [file err] eqn:Ho.
  destruct (os_IsNotExist err) eqn:Hne.
  - destruct file as [f|].
    + destruct (openpgp_ReadKeyRing d f) as [el [e|]] eqn:Hr;
        cbn [fst snd filename KeyringFile_Index]; rewrite Ho, Hne, Hr;
        reflexivity.
    + cbn [fst snd filename KeyringFile_Index]. rewrite Ho, Hne. reflexivity.
  - destruct err as [e|].
    + cbn [fst snd]. rewrite Ho, Hne. reflexivity.
    + destruct file as [f|].
      * destruct (openpgp_ReadKeyRing d f) as [el [e|]] eqn:Hr;
          cbn [fst snd filename KeyringFile_Index]; rewrite Ho, Hne, Hr;
          reflexivity.
      * cbn [fst snd filename KeyringFile_Index]. rewrite Ho, Hne.
        reflexivity.
Qed.

Lemma LoadKeyrings_again (v : list KeyringFile) :
  Keyrings_LoadKeyrings d (fst (fst (Keyrings_LoadKeyrings d v)))
  = Keyrings_LoadKeyrings d v.
Proof.
  induction v as [|k v IH]; [reflexivity|].
  cbn [Keyrings_LoadKeyrings]. rewrite (LoadAndIndex_eta d k).
  destruct (load_error d k) as [e|] eqn:E.
  - cbn [fst snd Keyrings_LoadKeyrings].
    rewrite LoadAndIndex_again, E. reflexivity.
  - destruct (Keyrings_LoadKeyrings d v) as [[v' e'] tr'] eqn:Ev.
    cbn [fst snd Keyrings_LoadKeyrings] in *.
    rewrite LoadAndIndex_again, E, IH. reflexivity.
Qed.

Lemma LoadKeyrings_names (v : list KeyringFile) :
  map filename (fst (fst (Keyrings_LoadKeyrings d v))) = map filename v
  /\ map isPublic (fst (fst (Keyrings_LoadKeyrings d v))) = map isPublic v.
Proof.
  induction v as [|k v [IH1 IH2]]; [split; reflexivity|].
  cbn [Keyrings_LoadKeyrings]. rewrite (LoadAndIndex_eta d k).
  destruct (loaded_filename k) as [Hf Hp].
  destruct (load_error d k) as [e|].
  - cbn [fst snd map]. rewrite Hf, Hp. split; reflexivity.
  - destruct (Keyrings_LoadKeyrings d v) as [[v' e'] tr'].
    cbn [fst snd map] in *. rewrite Hf, Hp, IH1, IH2. split; reflexivity.
Qed.

Lemma LoadKeyrings_members (v : list KeyringFile) (g : KeyringFile) :
  g ∈ fst (fst (Keyrings_LoadKeyrings d v)) ->
  g ∈ v \/ exists f, f ∈ v /\ g = loaded d f.
Proof.
  induction v as [|k v IH]; [intros H; left; exact H|].
  cbn [Keyrings_LoadKeyrings]. rewrite (LoadAndIndex_eta d k).
  destruct (load_error d k) as [e|].
  - cbn [fst snd]. intros H. apply elem_of_cons in H as [->|H].
    + right. exists k. split; [apply list_elem_of_here|reflexivity].
    + left. apply elem_of_cons. right. exact H.
  - destruct (Keyrings_LoadKeyrings d v) as [[v' e'] tr'].
    cbn [fst snd] in *. intros H. apply elem_of_cons in H as [->|H].
    + right. exists k. split; [apply list_elem_of_here|reflexivity].
    + destruct (IH H) as [Hin|(f & Hf & ->)].
      * left. apply elem_of_cons. right. exact Hin.
      * right. exists f. split; [apply elem_of_cons; right; exact Hf|reflexivity].
Qed.

End OneFile.

(** ** Loading all files: what stays the same *)

Section WholeLoad.

Context {File SKB : Type}.
Variable d : Disk File SKB.

Lemma Keyrings_Load_files (k : Keyrings SKB) :
  Public (fst (fst (Keyrings_Load d k)))
    = fst (fst (Keyrings_LoadKeyrings d (Public k)))
  /\ (Secret (fst (fst (Keyrings_Load d k))) = Secret k
      \/ Secret (fst (fst (Keyrings_Load d k)))
         = fst (fst (Keyrings_LoadKeyrings d (Secret k)))).
Proof.
  unfold Keyrings_Load.
  destruct (Keyrings_LoadKeyrings d (Public k)) as [[pub [e|]] tr].
  - split; [reflexivity|left; reflexivity].
  - destruct (Keyrings_LoadKeyrings d (Secret k)) as [[sec e'] tr'].
    split; [reflexivity|right; reflexivity].
Qed.

Lemma Keyrings_Load_names (k : Keyrings SKB) :
  map filename (Public (fst (fst (Keyrings_Load d k))))
    = map filename (Public k)
  /\ map filename (Secret (fst (fst (Keyrings_Load d k))))
     = map filename (Secret k)
  /\ map isPublic (Public (fst (fst (Keyrings_Load d k))))
     = map isPublic (Public k)
  /\ map isPublic (Secret (fst (fst (Keyrings_Load d k))))
     = map isPublic (Secret k).
Proof.
  destruct (Keyrings_Load_files k) as [Hp Hs].
  destruct (LoadKeyrings_names d (Public k)) as [Pn Pp].
  destruct (LoadKeyrings_names d (Secret k)) as [Sn Sp].
  rewrite Hp, Pn, Pp.
  split; [reflexivity|]. split; [|split; [reflexivity|]].
  - destruct Hs as [->| ->]; [reflexivity|exact Sn].
  - destruct Hs as [->| ->]; [reflexivity|exact Sp].
Qed.

(** X8: [Load] keeps the names and the visibility flags of the public
    and of the secret files, in order, and does not touch the per-user
    cache. *)
Theorem Load_keeps_files (k : Keyrings SKB) :
  let k' := fst (fst (Keyrings_Load d k)) in
  map GetFilename (Public k') = map GetFilename (Public k)
  /\ map GetFilename (Secret k') = map GetFilename (Secret k)
  /\ map isPublic (Public k') = map isPublic (Public k)
  /\ map isPublic (Secret k') = map isPublic (Secret k)
  /\ skbMap k' = skbMap k.
Proof.
  intros k'. subst k'.
  destruct (Keyrings_Load_names k) as (Hpn & Hsn & Hpp & Hsp).
  change GetFilename with filename.
  split; [exact Hpn|]. split; [exact Hsn|].
  split; [exact Hpp|]. split; [exact Hsp|].
  apply Keyrings_Load_skbMap.
Qed.

(** X9: loading a second time from the same disk returns what the first
    load returned and leaves the aggregate as the first load left it. *)
Theorem Load_twice (k : Keyrings SKB) :
  Keyrings_Load d (fst (fst (Keyrings_Load d k))) = Keyrings_Load d k.
Proof.
  unfold Keyrings_Load.
  destruct (Keyrings_LoadKeyrings d (Public k)) as [[pub e] tr] eqn:Ep.
  pose proof (LoadKeyrings_again d (Public k)) as Ap. rewrite Ep in Ap.
  cbn [fst snd] in Ap.
  destruct e as [e|].
  - cbn [fst snd Public Secret skbMap]. rewrite Ap. reflexivity.
  - destruct (Keyrings_LoadKeyrings d (Secret k)) as [[sec e'] tr'] eqn:Es.
    pose proof (LoadKeyrings_again d (Secret k)) as As. rewrite Es in As.
    cbn [fst snd] in As.
    cbn [fst snd Public Secret skbMap]. rewrite Ap, As. reflexivity.
Qed.

(** X10: if every public file loads, then after [Load] a public lookup
    of the fingerprint of any primary key or subkey of any loaded public
    entity returns an entity of a public file that carries that
    fingerprint. *)
Theorem Load_then_FindKey_public (k : Keyrings SKB) (f : KeyringFile)
  (e : Entity) (pk : packet_PublicKey) :
  (forall g, g ∈ Public k -> load_error d g = None) ->
  f ∈ Public k ->
  e ∈ Entities (loaded d f) ->
  registered_for e pk ->
  exists e' file,
    FindKey (fst (fst (Keyrings_Load d k))) (Fingerprint pk) false = Some e'
    /\ file ∈ Public (fst (fst (Keyrings_Load d k)))
    /\ e' ∈ Entities file
    /\ carries_fp (Fingerprint pk) e' = true.
Proof.
  intros Hok Hf He Hreg.
  set (k' := fst (fst (Keyrings_Load d k))).
  assert (Hpub : Public k' = map (loaded d) (Public k)).
  { subst k'. rewrite (proj1 (Keyrings_Load_files k)).
    rewrite (LoadKeyrings_all_ok d (Public k) Hok). reflexivity. }
  assert (Hidx : forall g fp,
             g ∈ Public k ->
             indexFingerprint (loaded d g) !! fp
             = Some <$> last_such (carries_fp fp) (Entities (loaded d g))).
  { intros g fp Hg.
    apply (proj2 (loaded_ok_lookup d g (Hok g Hg))). }
  destruct (FindKey k' (Fingerprint pk) false) as [e'|] eqn:EF.
  - unfold FindKey in EF. apply FindKey_loop_Some in EF.
    destruct EF as (pre & file & post & Hs & _ & Hhit).
    assert (Hin : file ∈ Public k').
    { rewrite Hs. apply elem_of_app. right. apply list_elem_of_here. }
    exists e', file. split; [reflexivity|]. split; [exact Hin|].
    rewrite Hpub in Hin. apply list_elem_of_fmap in Hin as (g & -> & Hg).
    unfold hit in Hhit. rewrite (Hidx g _ Hg) in Hhit.
    destruct (last_such _ _) as [x|] eqn:EL; [|discriminate Hhit].
    cbn in Hhit. injection Hhit as <-.
    apply (last_such_Some _ _ _ EL).
  - exfalso.
    unfold FindKey in EF.
    pose proof (proj1 (FindKey_loop_None _ _ _) EF (loaded d f)) as Hn.
    rewrite Hpub in Hn.
    specialize (Hn (list_elem_of_fmap_2 _ _ _ Hf)).
    unfold hit in Hn. rewrite (Hidx f _ Hf) in Hn.
    destruct (carries_own_keys e pk (registered_for_public_keys e pk Hreg))
      as [_ Hc].
    destruct (last_such (carries_fp (Fingerprint pk)) (Entities (loaded d f)))
      as [x|] eqn:EL; [cbn in Hn; discriminate Hn|].
    rewrite (last_such_None _ _ EL e He) in Hc. discriminate Hc.
Qed.

End WholeLoad.

(** ** What each operation leaves alone *)

Lemma LoadSKBKeyring_files {File SKB} (d : Disk File SKB) (G_Env : Env)
  (k : Keyrings SKB) (un : string) :
  Public (snd (fst (LoadSKBKeyring d G_Env k un))) = Public k
  /\ Secret (snd (fst (LoadSKBKeyring d G_Env k un))) = Secret k.
Proof.
  destruct (LoadSKBKeyring_state d G_Env k un) as [->|(_ & _ & ->)];
    split; reflexivity.
Qed.

Lemma GetSecretKeyLocked_files {File SKB KID User ComputedKeyFamily}
  (c : Collaborators SKB KID User ComputedKeyFamily) (d : Disk File SKB)
  (G_Env : Env) (k : Keyrings SKB) (ska : SecretKeyArg User) :
  Public (snd (fst (GetSecretKeyLocked c d G_Env k ska))) = Public k
  /\ Secret (snd (fst (GetSecretKeyLocked c d G_Env k ska))) = Secret k.
Proof.
  destruct (GetSecretKeyLocked_state c d G_Env k ska) as [->|[me ->]];
    [split; reflexivity|apply LoadSKBKeyring_files].
Qed.

(** ** The indexes in reachable states *)

Lemma LoadKeyrings_carry {File SKB} (d : Disk File SKB) (v : list KeyringFile) :
  (forall f, f ∈ v -> index_carries f) ->
  forall g, g ∈ fst (fst (Keyrings_LoadKeyrings d v)) -> index_carries g.
Proof.
  intros Hv g Hg.
  destruct (LoadKeyrings_members d v g Hg) as [Hin|(f & Hf & ->)].
  - apply Hv. exact Hin.
  - apply loaded_index_carries. apply Hv. exact Hf.
Qed.

Lemma reachable_files_carry {SKB} (k : Keyrings SKB) :
  reachable k -> files_carry k.
Proof.
  induction 1 as [e usage|File d G_Env k un _ IH|File d k _ IH
                 |File KID User CKF c d G_Env k ska _ IH].
  - intros f Hf.
    assert (Hix : indexId f = ∅ /\ indexFingerprint f = ∅).
    { unfold NewKeyrings in Hf.
      destruct (GpgKeyring usage); cbn in Hf; destruct Hf as [Hf|Hf];
        try (apply elem_of_nil in Hf; destruct Hf);
        unfold MakeKeyrings in Hf; apply list_elem_of_In, in_map_iff in Hf;
        destruct Hf as (fn & <- & _); split; reflexivity. }
    destruct Hix as [Hi Hf']. split.
    + intros id v Hv. rewrite Hi, lookup_empty in Hv. discriminate Hv.
    + intros fp v Hv. rewrite Hf', lookup_empty in Hv. discriminate Hv.
  - unfold files_carry.
    destruct (LoadSKBKeyring_files d G_Env k un) as [-> ->]. exact IH.
  - intros f Hf. destruct (Keyrings_Load_files d k) as [Hp Hs].
    destruct Hf as [Hf|Hf].
    + rewrite Hp in Hf. apply (LoadKeyrings_carry d (Public k)); [|exact Hf].
      intros g Hg. apply IH. left. exact Hg.
    + destruct Hs as [Hs|Hs]; rewrite Hs in Hf.
      * apply IH. right. exact Hf.
      * apply (LoadKeyrings_carry d (Secret k)); [|exact Hf].
        intros g Hg. apply IH. right. exact Hg.
  - unfold files_carry.
    destruct (GetSecretKeyLocked_files c d G_Env k ska) as [-> ->]. exact IH.
Qed.

(** X11: in every reachable state, the entity that [FindKey] returns
    carries a key with the fingerprint asked for, and has private
    material if the lookup was a secret one. *)
Theorem FindKey_sound {SKB} (k : Keyrings SKB) (fp : PgpFingerprint)
  (secret : bool) (e : Entity) :
  reachable k ->
  FindKey k fp secret = Some e ->
  carries_fp fp e = true
  /\ (secret = true -> PrivateKey e <> None).
Proof.
  intros Hr HF.
  unfold FindKey in HF. apply FindKey_loop_Some in HF.
  destruct HF as (pre & file & post & Hs & _ & Hhit).
  assert (Hin : file ∈ Public k \/ file ∈ Secret k).
  { destruct secret; [right|left]; rewrite Hs;
      apply elem_of_app; right; apply list_elem_of_here. }
  destruct (reachable_files_carry k Hr file Hin) as [_ Hfp].
  unfold hit in Hhit.
  destruct (indexFingerprint file !! fp) as [[key|]|] eqn:E;
    try discriminate Hhit.
  destruct (Hfp fp (Some key) E) as (x & [= <-] & Hc).
  destruct secret; cbn [negb orb] in Hhit.
  - destruct (PrivateKey key) eqn:P; cbn in Hhit; [|discriminate Hhit].
    injection Hhit as <-. split; [exact Hc|]. intros _. congruence.
  - injection Hhit as <-. split; [exact Hc|]. discriminate.
Qed.

(** ** Secret key retrieval: outcomes, order and gating *)

Section Outcomes.

Context {File SKB KID User ComputedKeyFamily : Type}.
Variable c : Collaborators SKB KID User ComputedKeyFamily.
Variable d : Disk File SKB.
Variable G_Env : Env.

(** [GetSecretKeyLocked_for] after the local lookup. *)
Lemma GetSecretKeyLocked_for_local (k : Keyrings SKB)
  (ska : SecretKeyArg User) (me : User) :
  GetSecretKeyLocked_for c d G_Env k ska me
  = match fst (fst (GetLockedLocalSecretKey c d G_Env k ska me)) with
    | Some skb =>
        (mkLocked (Some skb) "" None,
         snd (fst (GetLockedLocalSecretKey c d G_Env k ska me)),
         snd (GetLockedLocalSecretKey c d G_Env k ska me))
    | None =>
        if UseSyncedPGPKey ska then
          (synced_outcome (GetSyncedSecretKey c me),
           snd (fst (GetLockedLocalSecretKey c d G_Env k ska me)),
           snd (GetLockedLocalSecretKey c d G_Env k ska me) ++ [EvGetSynced])
        else
          (mkLocked None "" (Some NoSecretKeyError),
           snd (fst (GetLockedLocalSecretKey c d G_Env k ska me)),
           snd (GetLockedLocalSecretKey c d G_Env k ska me))
    end.
Proof.
  unfold GetSecretKeyLocked_for, synced_outcome.
  destruct (GetLockedLocalSecretKey c d G_Env k ska me) as [[local k'] tr].
  cbn [fst snd]. destruct local as [skb|]; [reflexivity|].
  destruct (UseSyncedPGPKey ska); cbn [negb]; [|reflexivity].
  destruct (GetSyncedSecretKey c me) as [[skb|] [e|]]; reflexivity.
Qed.

(** The local lookup does not look at [ska.Me]. *)
Lemma GetLockedLocalSecretKey_flags (k : Keyrings SKB)
  (ska ska' : SecretKeyArg User) (me : User) :
  UseDeviceKey ska = UseDeviceKey ska' ->
  SearchForKey ska = SearchForKey ska' ->
  GetLockedLocalSecretKey c d G_Env k ska me
  = GetLockedLocalSecretKey c d G_Env k ska' me.
Proof.
  intros Hd Hs. unfold GetLockedLocalSecretKey, device_key_step.
  rewrite Hd, Hs. reflexivity.
Qed.

Lemma GetSecretKeyLocked_for_flags (k : Keyrings SKB)
  (ska ska' : SecretKeyArg User) (me : User) :
  UseDeviceKey ska = UseDeviceKey ska' ->
  SearchForKey ska = SearchForKey ska' ->
  UseSyncedPGPKey ska = UseSyncedPGPKey ska' ->
  GetSecretKeyLocked_for c d G_Env k ska me
  = GetSecretKeyLocked_for c d G_Env k ska' me.
Proof.
  intros Hd Hs Hy. rewrite !GetSecretKeyLocked_for_local.
  rewrite (GetLockedLocalSecretKey_flags k ska ska' me Hd Hs), Hy.
  reflexivity.
Qed.

(** [GetSecretKeyLocked] once the subject is known. *)
Lemma GetSecretKeyLocked_subject (k : Keyrings SKB)
  (ska : SecretKeyArg User) (me : User) :
  subject c ska = Some me ->
  GetSecretKeyLocked c d G_Env k ska
  = (fst (fst (GetSecretKeyLocked_for c d G_Env k ska me)),
     snd (fst (GetSecretKeyLocked_for c d G_Env k ska me)),
     match Me ska with Some _ => [] | None => [EvLoadMe] end
       ++ snd (GetSecretKeyLocked_for c d G_Env k ska me)).
Proof.
  unfold subject, GetSecretKeyLocked. destruct (Me ska) as [me0|].
  - intros [= ->].
    destruct (GetSecretKeyLocked_for c d G_Env k ska me) as [[r k'] tr].
    reflexivity.
  - destruct (LoadMe c) as [me0|e]; [|discriminate]. intros [= ->].
    rewrite (GetSecretKeyLocked_for_flags k _ ska me);
      [|reflexivity|reflexivity|reflexivity].
    destruct (GetSecretKeyLocked_for c d G_Env k ska me) as [[r k'] tr].
    reflexivity.
Qed.

Lemma GetSecretKeyLocked_no_subject (k : Keyrings SKB)
  (ska : SecretKeyArg User) :
  subject c ska = None ->
  exists e,
    Me ska = None /\ LoadMe c = inr e
    /\ GetSecretKeyLocked c d G_Env k ska
       = (mkLocked None "" (Some e), k, [EvLoadMe]).
Proof.
  unfold subject, GetSecretKeyLocked. destruct (Me ska) as [me0|];
    [discriminate|].
  destruct (LoadMe c) as [me0|e]; [discriminate|]. intros _.
  exists e. repeat split; reflexivity.
Qed.

(** Which events the local lookup can leave in the trace. *)
Lemma GetLockedLocalSecretKey_trace_none (p : Event -> bool)
  (k : Keyrings SKB) (ska : SecretKeyArg User) (me : User) :
  p EvLock = false -> p EvUnlock = false ->
  (forall u, p (EvMapRead u) = false) ->
  (forall u, p (EvMapWrite u) = false) ->
  (forall path, p (EvSKBLoad path) = false) ->
  p EvGetComputedKeyFamily = false ->
  (UseDeviceKey ska = true ->
   p EvGetDeviceKid = false /\ p EvLookupByKid = false) ->
  (SearchForKey ska = true -> p EvSearchLocal = false) ->
  none_of p (snd (GetLockedLocalSecretKey c d G_Env k ska me)) = true.
Proof.
  intros HL HU HR HW HS HC HD HSe.
  pose proof (LoadSKBKeyring_trace_none d G_Env p k (user_name c me)
                HL HU HR HW HS) as T.
  unfold GetLockedLocalSecretKey.
  destruct (LoadSKBKeyring d G_Env k (user_name c me))
    as [[[keyring e] k'] tr]. cbn [snd] in T.
  destruct e as [e|]; [exact T|].
  destruct keyring as [keyring|]; [|exact T].
  assert (N1 : forall ev, p ev = false -> none_of p [ev] = true).
  { intros ev Hev. unfold none_of. cbn. rewrite Hev. reflexivity. }
  destruct (GetComputedKeyFamily c me) as [ckf|];
    [|cbn [snd]; rewrite none_of_app, T, (N1 _ HC); reflexivity].
  assert (TD : none_of p (snd (device_key_step c ska keyring ckf)) = true).
  { unfold device_key_step. destruct (UseDeviceKey ska); [|reflexivity].
    destruct (HD eq_refl) as [Hk Hl]. cbn [negb].
    destruct (GetActiveSibkeyKidForCurrentDevice c ckf) as [[kid|] [e|]];
      unfold none_of; cbn; rewrite ?Hk, ?Hl; reflexivity. }
  destruct (device_key_step c ska keyring ckf) as [[skb|] tr']; cbn [snd] in *.
  - rewrite !none_of_app, T, (N1 _ HC), TD. reflexivity.
  - destruct (SearchForKey ska); cbn [snd].
    + rewrite !none_of_app, T, (N1 _ HC), TD, (N1 _ (HSe eq_refl)).
      reflexivity.
    + rewrite !none_of_app, T, (N1 _ HC), TD. reflexivity.
Qed.

Lemma GetSecretKeyLocked_trace_none (p : Event -> bool)
  (k : Keyrings SKB) (ska : SecretKeyArg User) :
  p EvLock = false -> p EvUnlock = false ->
  (forall u, p (EvMapRead u) = false) ->
  (forall u, p (EvMapWrite u) = false) ->
  (forall path, p (EvSKBLoad path) = false) ->
  p EvGetComputedKeyFamily = false ->
  p EvLoadMe = false ->
  (UseDeviceKey ska = true ->
   p EvGetDeviceKid = false /\ p EvLookupByKid = false) ->
  (SearchForKey ska = true -> p EvSearchLocal = false) ->
  (UseSyncedPGPKey ska = true -> p EvGetSynced = false) ->
  none_of p (snd (GetSecretKeyLocked c d G_Env k ska)) = true.
Proof.
  intros HL HU HR HW HS HC HM HD HSe HSy.
  destruct (subject c ska) as [me|] eqn:Hsubj.
  - rewrite (GetSecretKeyLocked_subject k ska me Hsubj). cbn [snd].
    rewrite none_of_app.
    assert (H0 : none_of p match Me ska with
                           | Some _ => []
                           | None => [EvLoadMe]
                           end = true).
    { destruct (Me ska); [reflexivity|]. unfold none_of. cbn. rewrite HM.
      reflexivity. }
    rewrite H0. cbn [andb]. rewrite GetSecretKeyLocked_for_local.
    pose proof (GetLockedLocalSecretKey_trace_none p k ska me
                  HL HU HR HW HS HC HD HSe) as T.
    destruct (fst (fst (GetLockedLocalSecretKey c d G_Env k ska me)));
      [exact T|].
    destruct (UseSyncedPGPKey ska); cbn [snd]; [|exact T].
    rewrite none_of_app, T. unfold none_of. cbn. rewrite (HSy eq_refl).
    reflexivity.
  - destruct (GetSecretKeyLocked_no_subject k ska Hsubj) as (e & _ & _ & ->).
    unfold none_of. cbn. rewrite HM. reflexivity.
Qed.

(** X12: [GetSecretKeyLocked] asks for the device key, searches the
    keyring, and asks for the synced key only if the flag of that source,
    or [All], is set; it never reads an OpenPGP keyring file and leaves
    the public and secret files as they were. *)
Theorem GetSecretKeyLocked_gated (k : Keyrings SKB) (ska : SecretKeyArg User) :
  (UseDeviceKey ska = false ->
   none_of is_device_event (snd (GetSecretKeyLocked c d G_Env k ska)) = true)
  /\ (SearchForKey ska = false ->
      none_of search_event (snd (GetSecretKeyLocked c d G_Env k ska)) = true)
  /\ (UseSyncedPGPKey ska = false ->
      none_of synced_event (snd (GetSecretKeyLocked c d G_Env k ska)) = true)
  /\ none_of is_pgp_io (snd (GetSecretKeyLocked c d G_Env k ska)) = true
  /\ Public (snd (fst (GetSecretKeyLocked c d G_Env k ska))) = Public k
  /\ Secret (snd (fst (GetSecretKeyLocked c d G_Env k ska))) = Secret k.
Proof.
  split; [|split; [|split; [|split]]].
  - intros H. apply GetSecretKeyLocked_trace_none; try reflexivity;
      try (intros; reflexivity); congruence.
  - intros H. apply GetSecretKeyLocked_trace_none; try reflexivity;
      try (intros; reflexivity); try congruence.
    intros _. split; reflexivity.
  - intros H. apply GetSecretKeyLocked_trace_none; try reflexivity;
      try (intros; reflexivity); try congruence.
    intros _. split; reflexivity.
  - apply GetSecretKeyLocked_trace_none; try reflexivity;
      try (intros; reflexivity). intros _. split; reflexivity.
  - apply GetSecretKeyLocked_files.
Qed.

(** X13: a key that the local lookup finds is returned, without error
    and with the empty provenance, and the synced key is not asked for. *)
Theorem GetSecretKeyLocked_local_first (k : Keyrings SKB)
  (ska : SecretKeyArg User) (me : User) (skb : SKB) :
  subject c ska = Some me ->
  fst (fst (GetLockedLocalSecretKey c d G_Env k ska me)) = Some skb ->
  fst (fst (GetSecretKeyLocked c d G_Env k ska)) = mkLocked (Some skb) "" None
  /\ none_of synced_event (snd (GetSecretKeyLocked c d G_Env k ska)) = true.
Proof.
  intros Hsubj Hloc.
  rewrite (GetSecretKeyLocked_subject k ska me Hsubj).
  rewrite GetSecretKeyLocked_for_local, Hloc. cbn [fst snd].
  split; [reflexivity|]. rewrite none_of_app.
  rewrite (GetLockedLocalSecretKey_trace_none synced_event k ska me);
    try reflexivity; try (intros; reflexivity);
    try (intros _; split; reflexivity).
  destruct (Me ska); reflexivity.
Qed.

(** When nothing is found locally the outcome is that of the synced-key
    step, if that step is asked for. *)
Lemma GetSecretKeyLocked_falls_back (k : Keyrings SKB)
  (ska : SecretKeyArg User) (me : User) :
  subject c ska = Some me ->
  fst (fst (GetLockedLocalSecretKey c d G_Env k ska me)) = None ->
  fst (fst (GetSecretKeyLocked c d G_Env k ska))
  = if UseSyncedPGPKey ska
    then synced_outcome (GetSyncedSecretKey c me)
    else mkLocked None "" (Some NoSecretKeyError).
Proof.
  intros Hsubj Hloc.
  rewrite (GetSecretKeyLocked_subject k ska me Hsubj).
  rewrite GetSecretKeyLocked_for_local, Hloc. cbn [fst].
  destruct (UseSyncedPGPKey ska); reflexivity.
Qed.

(** The local lookup finds nothing, and asks neither for the device key
    nor for a search, if the keyring or the key family cannot be had. *)
Lemma GetLockedLocalSecretKey_unavailable (k : Keyrings SKB)
  (ska : SecretKeyArg User) (me : User) :
  snd (fst (fst (LoadSKBKeyring d G_Env k (user_name c me)))) <> None
  \/ GetComputedKeyFamily c me = None ->
  fst (fst (GetLockedLocalSecretKey c d G_Env k ska me)) = None
  /\ none_of is_device_event
       (snd (GetLockedLocalSecretKey c d G_Env k ska me)) = true
  /\ none_of search_event
       (snd (GetLockedLocalSecretKey c d G_Env k ska me)) = true.
Proof.
  pose proof (LoadSKBKeyring_trace_none d G_Env is_device_event k
                (user_name c me) eq_refl eq_refl (fun _ => eq_refl)
                (fun _ => eq_refl) (fun _ => eq_refl)) as T1.
  pose proof (LoadSKBKeyring_trace_none d G_Env search_event k
                (user_name c me) eq_refl eq_refl (fun _ => eq_refl)
                (fun _ => eq_refl) (fun _ => eq_refl)) as T2.
  unfold GetLockedLocalSecretKey.
  destruct (LoadSKBKeyring d G_Env k (user_name c me))
    as [[[keyring e] k'] tr]. cbn [fst snd] in *.
  destruct e as [e|]; [intros _; auto|].
  destruct keyring as [keyring|]; [|intros _; auto].
  intros [H|H]; [congruence|]. rewrite H. cbn [fst snd].
  rewrite !none_of_app, T1, T2. auto.
Qed.

(** X14: if the per-user keyring cannot be loaded, or the subject has
    no computed key family, the request does not fail with that: its
    outcome is that of the synced-key step if that step is asked for and
    [NoSecretKeyError] otherwise, and neither the device key nor a
    search is attempted. *)
Theorem GetSecretKeyLocked_keyring_unavailable (k : Keyrings SKB)
  (ska : SecretKeyArg User) (me : User) :
  subject c ska = Some me ->
  snd (fst (fst (LoadSKBKeyring d G_Env k (user_name c me)))) <> None
  \/ GetComputedKeyFamily c me = None ->
  fst (fst (GetSecretKeyLocked c d G_Env k ska))
  = (if UseSyncedPGPKey ska
     then synced_outcome (GetSyncedSecretKey c me)
     else mkLocked None "" (Some NoSecretKeyError))
  /\ none_of is_device_event (snd (GetSecretKeyLocked c d G_Env k ska)) = true
  /\ none_of search_event (snd (GetSecretKeyLocked c d G_Env k ska)) = true.
Proof.
  intros Hsubj Hun.
  destruct (GetLockedLocalSecretKey_unavailable k ska me Hun)
    as (Hloc & Td & Ts).
  split; [exact (GetSecretKeyLocked_falls_back k ska me Hsubj Hloc)|].
  rewrite (GetSecretKeyLocked_subject k ska me Hsubj).
  rewrite GetSecretKeyLocked_for_local, Hloc. cbn [snd].
  assert (H0 : forall p, p EvLoadMe = false ->
             none_of p match Me ska with
                       | Some _ => []
                       | None => [EvLoadMe]
                       end = true).
  { intros p Hp. destruct (Me ska); [reflexivity|]. unfold none_of. cbn.
    rewrite Hp. reflexivity. }
  destruct (UseSyncedPGPKey ska); cbn [snd];
    rewrite !none_of_app, ?Td, ?Ts, !H0; try reflexivity; auto.
Qed.

(** Without an error there is a key; and the provenance is one of two
    strings. *)
Lemma locked_key_or_error (k : Keyrings SKB) (ska : SecretKeyArg User) :
  err (fst (fst (GetSecretKeyLocked c d G_Env k ska))) = None ->
  ret (fst (fst (GetSecretKeyLocked c d G_Env k ska))) <> None.
Proof.
  destruct (subject c ska) as [me|] eqn:Hsubj.
  - rewrite (GetSecretKeyLocked_subject k ska me Hsubj).
    rewrite GetSecretKeyLocked_for_local. cbn [fst].
    destruct (fst (fst (GetLockedLocalSecretKey c d G_Env k ska me)));
      cbn [fst ret err]; [discriminate|].
    destruct (UseSyncedPGPKey ska); cbn [fst ret err]; [|discriminate].
    unfold synced_outcome.
    destruct (GetSyncedSecretKey c me) as [[skb|] [e|]]; cbn [ret err];
      discriminate.
  - destruct (GetSecretKeyLocked_no_subject k ska Hsubj) as (e & _ & _ & ->).
    discriminate.
Qed.

Lemma locked_which_values (k : Keyrings SKB) (ska : SecretKeyArg User) :
  which (fst (fst (GetSecretKeyLocked c d G_Env k ska))) = ""
  \/ which (fst (fst (GetSecretKeyLocked c d G_Env k ska)))
     = "your Keybase.io passphrase".
Proof.
  destruct (subject c ska) as [me|] eqn:Hsubj.
  - rewrite (GetSecretKeyLocked_subject k ska me Hsubj).
    rewrite GetSecretKeyLocked_for_local. cbn [fst].
    destruct (fst (fst (GetLockedLocalSecretKey c d G_Env k ska me)));
      cbn [fst which]; [left; reflexivity|].
    destruct (UseSyncedPGPKey ska); cbn [fst which]; [|left; reflexivity].
    unfold synced_outcome.
    destruct (GetSyncedSecretKey c me) as [[skb|] [e|]]; cbn [which]; auto.
  - destruct (GetSecretKeyLocked_no_subject k ska Hsubj) as (e & _ & _ & ->).
    left. reflexivity.
Qed.

(** X15: once the subject is known, the result of
    [GetSecretKeyLocked] is fixed by the local lookup and, only if that
    found nothing and the synced key is asked for, by the answer of
    [GetSyncedSecretKey].  A key found locally is returned without error;
    nothing found and no synced key asked for gives [NoSecretKeyError];
    an error of the provider is returned with whatever key came with it;
    a synced key without error is returned with the passphrase
    provenance; no synced key and no error gives [NoSecretKeyError].  In
    no case are both the key and the error [nil]. *)
Theorem GetSecretKeyLocked_outcomes (k : Keyrings SKB)
  (ska : SecretKeyArg User) (me : User) :
  subject c ska = Some me ->
  let r := fst (fst (GetSecretKeyLocked c d G_Env k ska)) in
  let local := fst (fst (GetLockedLocalSecretKey c d G_Env k ska me)) in
  (forall skb, local = Some skb -> r = mkLocked (Some skb) "" None)
  /\ (local = None -> UseSyncedPGPKey ska = false ->
      r = mkLocked None "" (Some NoSecretKeyError))
  /\ (forall answer e,
        local = None -> UseSyncedPGPKey ska = true ->
        GetSyncedSecretKey c me = (answer, Some e) ->
        r = mkLocked answer "" (Some e))
  /\ (forall skb,
        local = None -> UseSyncedPGPKey ska = true ->
        GetSyncedSecretKey c me = (Some skb, None) ->
        r = mkLocked (Some skb) "your Keybase.io passphrase" None)
  /\ (local = None -> UseSyncedPGPKey ska = true ->
      GetSyncedSecretKey c me = (None, None) ->
      r = mkLocked None "" (Some NoSecretKeyError))
  /\ (err r = None -> ret r <> None).
Proof.
  intros Hsubj r local. subst r local.
  rewrite (GetSecretKeyLocked_subject k ska me Hsubj).
  rewrite GetSecretKeyLocked_for_local. cbn [fst].
  destruct (fst (fst (GetLockedLocalSecretKey c d G_Env k ska me)))
    as [found|]; cbn [fst].
  - split; [intros skb [= <-]; reflexivity|].
    repeat (split; [intros; discriminate|]). cbn. discriminate.
  - split; [intros skb H; discriminate H|].
    destruct (UseSyncedPGPKey ska); cbn [fst].
    + split; [intros _ H; discriminate H|].
      unfold synced_outcome.
      destruct (GetSyncedSecretKey c me) as [[skb|] [e|]]; cbn [ret err].
      * split; [intros a e' _ _ [= <- <-]; reflexivity|].
        split; [intros s _ _ H; discriminate H|].
        split; [intros _ _ H; discriminate H|discriminate].
      * split; [intros a e' _ _ H; discriminate H|].
        split; [intros s _ _ [= <-]; reflexivity|].
        split; [intros _ _ H; discriminate H|discriminate].
      * split; [intros a e' _ _ [= <- <-]; reflexivity|].
        split; [intros s _ _ H; discriminate H|].
        split; [intros _ _ H; discriminate H|discriminate].
      * split; [intros a e' _ _ H; discriminate H|].
        split; [intros s _ _ H; discriminate H|].
        split; [reflexivity|discriminate].
    + split; [reflexivity|].
      split; [intros a e' _ H; discriminate H|].
      split; [intros s _ H; discriminate H|].
      split; [intros _ H; discriminate H|discriminate].
Qed.

(** X16: once the subject is known, the provenance is the passphrase
    text exactly when the local lookup found nothing, the synced key is
    asked for and [GetSyncedSecretKey] returns a key without error; that
    key is then returned, without error.  In every other case, also for
    a synced key that comes with an error, the provenance is empty. *)
Theorem GetSecretKeyLocked_provenance (k : Keyrings SKB)
  (ska : SecretKeyArg User) (me : User) :
  subject c ska = Some me ->
  let r := fst (fst (GetSecretKeyLocked c d G_Env k ska)) in
  let local := fst (fst (GetLockedLocalSecretKey c d G_Env k ska me)) in
  (which r = "your Keybase.io passphrase"
   <-> local = None /\ UseSyncedPGPKey ska = true
       /\ exists skb, GetSyncedSecretKey c me = (Some skb, None))
  /\ (which r <> "your Keybase.io passphrase" -> which r = "")
  /\ (which r = "your Keybase.io passphrase" ->
      err r = None /\ GetSyncedSecretKey c me = (ret r, None)).
Proof.
  intros Hsubj r local. subst r local.
  rewrite (GetSecretKeyLocked_subject k ska me Hsubj).
  rewrite GetSecretKeyLocked_for_local. cbn [fst].
  destruct (fst (fst (GetLockedLocalSecretKey c d G_Env k ska me)))
    as [found|]; cbn [fst which].
  - split; [split; [discriminate|intros (H & _); discriminate H]|].
    split; [reflexivity|discriminate].
  - destruct (UseSyncedPGPKey ska); cbn [fst which].
    + unfold synced_outcome.
      destruct (GetSyncedSecretKey c me) as [[skb|] [e|]];
        cbn [which ret err].
      * split; [split; [discriminate|intros (_ & _ & s & H); discriminate H]|].
        split; [reflexivity|discriminate].
      * split; [split; [intros _; repeat split; exists skb; reflexivity
                       |reflexivity]|].
        split; [intros H; congruence|intros _; split; reflexivity].
      * split; [split; [discriminate|intros (_ & _ & s & H); discriminate H]|].
        split; [reflexivity|discriminate].
      * split; [split; [discriminate|intros (_ & _ & s & H); discriminate H]|].
        split; [reflexivity|discriminate].
    + split; [split; [discriminate|intros (_ & H & _); discriminate H]|].
      split; [reflexivity|discriminate].
Qed.

(** X17: if the device-key step yields nothing and the local search is
    asked for, the key that the search finds is returned, and the synced
    key is not asked for. *)
Theorem GetSecretKeyLocked_search_after_device (k : Keyrings SKB)
  (ska : SecretKeyArg User) (me : User) (keyring : SKBKeyringFile SKB)
  (ckf : ComputedKeyFamily) (found : SKB) :
  subject c ska = Some me ->
  fst (fst (LoadSKBKeyring d G_Env k (user_name c me)))
    = (Some keyring, None) ->
  GetComputedKeyFamily c me = Some ckf ->
  fst (device_key_step c ska keyring ckf) = None ->
  SearchForKey ska = true ->
  SearchWithComputedKeyFamily c keyring ckf = Some found ->
  fst (fst (GetSecretKeyLocked c d G_Env k ska))
    = mkLocked (Some found) "" None
  /\ In EvSearchLocal (snd (GetSecretKeyLocked c d G_Env k ska))
  /\ none_of synced_event (snd (GetSecretKeyLocked c d G_Env k ska)) = true.
Proof.
  intros Hsubj Hload Hckf Hdev Hsearch Hfound.
  assert (Hloc : GetLockedLocalSecretKey c d G_Env k ska me
                 = (Some found,
                    snd (fst (LoadSKBKeyring d G_Env k (user_name c me))),
                    snd (LoadSKBKeyring d G_Env k (user_name c me))
                      ++ [EvGetComputedKeyFamily]
                      ++ snd (device_key_step c ska keyring ckf)
                      ++ [EvSearchLocal])).
  { unfold GetLockedLocalSecretKey.
    rewrite (LoadSKBKeyring_eta d G_Env k (user_name c me)), Hload, Hckf.
    destruct (device_key_step c ska keyring ckf) as [dev tr'].
    cbn [fst snd] in *. subst dev. rewrite Hsearch, Hfound. reflexivity. }
  assert (H1 : fst (fst (GetLockedLocalSecretKey c d G_Env k ska me))
               = Some found) by (rewrite Hloc; reflexivity).
  pose proof (GetLockedLocalSecretKey_trace_none synced_event k ska me
                eq_refl eq_refl (fun _ => eq_refl) (fun _ => eq_refl)
                (fun _ => eq_refl) eq_refl
                (fun _ => conj eq_refl eq_refl) (fun _ => eq_refl)) as Ht.
  rewrite (GetSecretKeyLocked_subject k ska me Hsubj).
  rewrite GetSecretKeyLocked_for_local, H1. cbn [fst snd].
  split; [reflexivity|]. split.
  - rewrite Hloc. cbn [snd].
    apply in_or_app. right. apply in_or_app. right.
    apply in_or_app. right. apply in_or_app. right. left. reflexivity.
  - rewrite none_of_app, Ht. destruct (Me ska); reflexivity.
Qed.

End Outcomes.

(** ** GetSecretKey: when the unlocker is called *)

(** X18: [GetSecretKey] returns the error of [GetSecretKeyLocked]
    without calling the unlocker; if there is no error it calls the
    unlocker once, with the key found, the reason of the request and the
    provenance, and returns its answer.  The aggregate and the trace are
    those of [GetSecretKeyLocked]. *)
Theorem GetSecretKey_prompts_iff_found
  {File SKB KID User ComputedKeyFamily GenericKey}
  (c : Collaborators SKB KID User ComputedKeyFamily)
  (PromptAndUnlock : SKB -> string -> string
                     -> option GenericKey * option error)
  (d : Disk File SKB) (G_Env : Env) (k : Keyrings SKB)
  (ska : SecretKeyArg User) :
  let r := fst (fst (GetSecretKeyLocked c d G_Env k ska)) in
  let out := GetSecretKey c PromptAndUnlock d G_Env k ska in
  (forall e,
     err r = Some e ->
     fst (fst (fst out)) = (None, Some e) /\ snd (fst (fst out)) = None)
  /\ (err r = None ->
      exists skb,
        ret r = Some skb
        /\ snd (fst (fst out)) = Some (mkPrompt skb (Reason ska) (which r))
        /\ fst (fst (fst out)) = PromptAndUnlock skb (Reason ska) (which r)
        /\ (which r = "" \/ which r = "your Keybase.io passphrase"))
  /\ snd (fst out) = snd (fst (GetSecretKeyLocked c d G_Env k ska))
  /\ snd out = snd (GetSecretKeyLocked c d G_Env k ska).
Proof.
  intros r out.
  pose proof (locked_key_or_error c d G_Env k ska) as Hnn.
  pose proof (locked_which_values c d G_Env k ska) as Hw.
  fold r in Hnn, Hw.
  subst out. unfold GetSecretKey.
  destruct (GetSecretKeyLocked c d G_Env k ska) as [[r0 k'] tr].
  cbn [fst snd] in *. subst r.
  destruct (err r0) as [e|] eqn:He.
  - split; [intros e' [= <-]; split; reflexivity|].
    split; [discriminate|]. split; reflexivity.
  - destruct (ret r0) as [skb|] eqn:Hr;
      [|exfalso; exact (Hnn eq_refl eq_refl)].
    split; [discriminate|]. split; [|split; reflexivity].
    intros _. exists skb. split; [reflexivity|]. split; [reflexivity|].
    split; [reflexivity|]. exact Hw.
Qed.

(** ** WriteTo *)

Section Serialization.

Variable Serialize : Entity -> list N * option error.

Lemma WriteTo_loop_all_ok (es : list Entity) (w : list N) :
  (forall e, e ∈ es -> snd (Serialize e) = None) ->
  WriteTo_loop Serialize es w
  = (w ++ concat (map (fun e => fst (Serialize e)) es), None).
Proof.
  revert w. induction es as [|e es IH]; intros w Hok.
  - cbn. rewrite app_nil_r. reflexivity.
  - cbn [WriteTo_loop map concat].
    pose proof (Hok e (list_elem_of_here _ _)) as He.
    destruct (Serialize e) as [bytes x]. cbn [fst snd] in *. subst x.
    rewrite IH, <- app_assoc; [reflexivity|].
    intros e' He'. apply Hok. apply elem_of_cons. right. exact He'.
Qed.

Lemma WriteTo_loop_first_failure (pre post : list Entity) (g : Entity)
  (x : error) (w : list N) :
  (forall e, e ∈ pre -> snd (Serialize e) = None) ->
  snd (Serialize g) = Some x ->
  WriteTo_loop Serialize (pre ++ g :: post) w
  = (w ++ concat (map (fun e => fst (Serialize e)) pre)
       ++ fst (Serialize g), Some x).
Proof.
  revert w. induction pre as [|e pre IH]; intros w Hok Hg.
  - cbn [app WriteTo_loop map concat].
    destruct (Serialize g) as [bytes y]. cbn [fst snd] in *. subst y.
    reflexivity.
  - cbn [app WriteTo_loop map concat].
    pose proof (Hok e (list_elem_of_here _ _)) as He.
    destruct (Serialize e) as [bytes y]. cbn [fst snd] in *. subst y.
    rewrite IH, <- !app_assoc; [reflexivity| |exact Hg].
    intros e' He'. apply Hok. apply elem_of_cons. right. exact He'.
Qed.

(** X19: [WriteTo] appends the serializations of the entities in file
    order; it stops at the first entity whose serialization fails,
    returns that error, and has written everything up to and including
    what that entity wrote. *)
Theorem WriteTo_in_order (k : KeyringFile) (w : list N) :
  ((forall e, e ∈ Entities k -> snd (Serialize e) = None) ->
   KeyringFile_WriteTo Serialize k w
   = (w ++ concat (map (fun e => fst (Serialize e)) (Entities k)), None))
  /\ (forall pre g post x,
        Entities k = pre ++ g :: post ->
        (forall e, e ∈ pre -> snd (Serialize e) = None) ->
        snd (Serialize g) = Some x ->
        KeyringFile_WriteTo Serialize k w
        = (w ++ concat (map (fun e => fst (Serialize e)) pre)
             ++ fst (Serialize g), Some x)).
Proof.
  unfold KeyringFile_WriteTo. split.
  - apply WriteTo_loop_all_ok.
  - intros pre g post x -> Hok Hg.
    apply WriteTo_loop_first_failure; assumption.
Qed.

End Serialization.

(** ** The cache over time *)

(** X20: after a call of [LoadSKBKeyring] that returns no error, a call
    for the same username, on any disk and environment, returns the same
    file, loads nothing and leaves the aggregate unchanged. *)
Theorem LoadSKBKeyring_hit_is_stable {File SKB} (d : Disk File SKB)
  (G_Env : Env) (k : Keyrings SKB) (un : string) :
  snd (fst (fst (LoadSKBKeyring d G_Env k un))) = None ->
  exists f,
    fst (fst (LoadSKBKeyring d G_Env k un)) = (Some f, None)
    /\ forall (File' : Type) (d' : Disk File' SKB) (G_Env' : Env),
         LoadSKBKeyring d' G_Env' (snd (fst (LoadSKBKeyring d G_Env k un))) un
         = ((Some f, None), snd (fst (LoadSKBKeyring d G_Env k un)),
            [EvLock; EvMapRead un; EvUnlock]).
Proof.
  intros Herr.
  destruct (cached k un) as [f|] eqn:Hc.
  - rewrite (LoadSKBKeyring_hit d G_Env k un f Hc) in *. cbn [fst snd].
    exists f. split; [reflexivity|]. intros File' d' G_Env'.
    apply LoadSKBKeyring_hit. exact Hc.
  - destruct (Nat.eqb (String.length un) 0) eqn:Hlen.
    + apply length_zero_empty in Hlen. subst un.
      rewrite (LoadSKBKeyring_empty d G_Env k Hc) in Herr.
      discriminate Herr.
    + assert (Hne : un <> "") by (intros ->; discriminate Hlen).
      rewrite (LoadSKBKeyring_miss d G_Env k un Hne Hc) in *.
      destruct (cacheable (skb_load_error d G_Env un)) eqn:Hca;
        cbn [fst snd] in *.
      * exists (skb_loaded d G_Env un). split; [reflexivity|].
        intros File' d' G_Env'. apply LoadSKBKeyring_hit.
        unfold cached. cbn [skbMap]. rewrite lookup_insert_eq. reflexivity.
      * unfold cacheable in Hca. rewrite Herr in Hca. discriminate Hca.
Qed.

Lemma evolves_cached {SKB} (k k' : Keyrings SKB) (un : string)
  (f : SKBKeyringFile SKB) :
  evolves k k' -> cached k un = Some f -> cached k' un = Some f.
Proof.
  induction 1 as [k|File d G_Env k k' un0 _ IH|File d k k' _ IH
                 |File KID User CKF c d G_Env k k' ska _ IH]; intros Hc.
  - exact Hc.
  - apply (proj1 (LoadSKBKeyring_frame d G_Env k' un0)). apply IH. exact Hc.
  - unfold cached. rewrite Keyrings_Load_skbMap. apply IH. exact Hc.
  - destruct (GetSecretKeyLocked_state c d G_Env k' ska) as [->|[me ->]];
      [apply IH; exact Hc|].
    apply (proj1 (LoadSKBKeyring_frame d G_Env k' _)). apply IH. exact Hc.
Qed.

(** X21: a file that is cached for a username remains the cached file
    for that username through any sequence of [LoadSKBKeyring],
    [Keyrings.Load] and [GetSecretKeyLocked] calls, and is what
    [LoadSKBKeyring] then returns, without a load. *)
Theorem cache_entries_persist {SKB} (k k' : Keyrings SKB) (un : string)
  (f : SKBKeyringFile SKB) :
  evolves k k' ->
  cached k un = Some f ->
  cached k' un = Some f
  /\ forall (File : Type) (d : Disk File SKB) (G_Env : Env),
       LoadSKBKeyring d G_Env k' un
       = ((Some f, None), k', [EvLock; EvMapRead un; EvUnlock]).
Proof.
  intros Hev Hc. pose proof (evolves_cached k k' un f Hev Hc) as Hc'.
  split; [exact Hc'|]. intros File d G_Env.
  apply LoadSKBKeyring_hit. exact Hc'.
Qed.

Lemma MakeKeyrings_names names pub :
  map filename (MakeKeyrings names pub) = names
  /\ map isPublic (MakeKeyrings names pub) = map (fun _ => pub) names.
Proof.
  unfold MakeKeyrings. rewrite !map_map. cbn. split; [apply map_id|reflexivity].
Qed.

(** X22: after [Load] on a new aggregate the public files are the
    configured public keyrings and the secret files the configured secret
    keyrings, in order, each with the visibility of its list; there are
    no files if the keyrings are not in use. *)
Theorem NewKeyrings_Load_names {File SKB} (d : Disk File SKB) (e : Env)
  (usage : Usage) :
  let k' := fst (fst (Keyrings_Load d (NewKeyrings (SKB:=SKB) e usage))) in
  map GetFilename (Public k')
    = (if GpgKeyring usage then GetPublicKeyrings e else [])
  /\ map GetFilename (Secret k')
     = (if GpgKeyring usage then GetPgpSecretKeyrings e else [])
  /\ (forall f, f ∈ Public k' -> isPublic f = true)
  /\ (forall f, f ∈ Secret k' -> isPublic f = false).
Proof.
  intros k'.
  destruct (Keyrings_Load_names d (NewKeyrings (SKB:=SKB) e usage))
    as (Hpn & Hsn & Hpp & Hsp). fold k' in Hpn, Hsn, Hpp, Hsp.
  change GetFilename with filename.
  assert (Hall : forall (b : bool) (l : list KeyringFile) (names : list string),
             map isPublic l = map (fun _ => b) names ->
             forall f, f ∈ l -> isPublic f = b).
  { intros b l names Hm f Hf.
    apply list_elem_of_In, (in_map isPublic) in Hf. rewrite Hm in Hf.
    apply in_map_iff in Hf as (x & Hx & _). congruence. }
  unfold NewKeyrings in *. destruct (GpgKeyring usage); cbn [Public Secret] in *.
  - destruct (MakeKeyrings_names (GetPublicKeyrings e) true) as [N1 P1].
    destruct (MakeKeyrings_names (GetPgpSecretKeyrings e) false) as [N2 P2].
    rewrite Hpn, Hsn, N1, N2. split; [reflexivity|]. split; [reflexivity|].
    split.
    + apply (Hall true _ (GetPublicKeyrings e)). rewrite Hpp. exact P1.
    + apply (Hall false _ (GetPgpSecretKeyrings e)). rewrite Hsp. exact P2.
  - rewrite Hpn, Hsn. split; [reflexivity|]. split; [reflexivity|].
    split; intros f Hf.
    + apply (f_equal (@List.length _)) in Hpn. rewrite !length_map in Hpn.
      destruct (Public k'); [apply elem_of_nil in Hf; destruct Hf|discriminate].
    + apply (f_equal (@List.length _)) in Hsn. rewrite !length_map in Hsn.
      destruct (Secret k'); [apply elem_of_nil in Hf; destruct Hf|discriminate].
Qed.


(** ** The properties on the concrete data *)

Lemma SKBFilenameForUser_substitutes_witness :
  SKBFilenameForUser env_sample "alice" = "/keys/alice.skb".
Proof.
  exact (proj2 (SKBFilenameForUser_substitutes env_sample "alice"
                  "/keys/" ".skb" eq_refl eq_refl) eq_refl).
Defined.

Lemma SKBFilenameForUser_injective_witness :
  "alice" = "alice"
  /\ SKBFilenameForUser env_sample "alice"
     <> SKBFilenameForUser env_sample "bob".
Proof.
  split.
  - exact (SKBFilenameForUser_injective env_sample "alice" "alice"
             eq_refl eq_refl).
  - intros H.
    pose proof (SKBFilenameForUser_injective env_sample "alice" "bob"
                  eq_refl H) as E.
    discriminate E.
Defined.


Lemma Load_then_FindKey_public_witness :
  exists e' file,
    FindKey keyrings_loaded (Fingerprint pk_other) false = Some e'
    /\ file ∈ Public keyrings_loaded
    /\ e' ∈ Entities file
    /\ carries_fp (Fingerprint pk_other) e' = true.
Proof.
  apply (Load_then_FindKey_public disk_sample keyrings_new
           (mkKeyringFile "pubring.gpg" [] true ∅ ∅) ent_other pk_other).
  - intros g Hg. apply elem_of_cons in Hg as [->|Hg];
      [vm_compute; reflexivity|]. apply elem_of_nil in Hg. destruct Hg.
  - apply list_elem_of_here.
  - apply elem_of_cons. right. apply list_elem_of_here.
  - left. reflexivity.
Defined.

Lemma keyrings_loaded_reachable : reachable keyrings_loaded.
Proof. apply reach_Load. apply reach_New. Qed.

Lemma FindKey_sound_witness :
  FindKey keyrings_loaded (Fingerprint pk_alice) true = Some ent_alice
  /\ carries_fp (Fingerprint pk_alice) ent_alice = true
  /\ PrivateKey ent_alice <> None.
Proof.
  assert (H : FindKey keyrings_loaded (Fingerprint pk_alice) true
              = Some ent_alice) by (vm_compute; reflexivity).
  destruct (FindKey_sound keyrings_loaded (Fingerprint pk_alice) true
              ent_alice keyrings_loaded_reachable H) as [Hc Hp].
  split; [exact H|]. split; [exact Hc|exact (Hp eq_refl)].
Defined.

Lemma GetSecretKeyLocked_gated_witness :
  none_of is_device_event
    (snd (GetSecretKeyLocked collab_synced disk_sample env_sample
            keyrings_new ska_synced_only)) = true
  /\ none_of search_event
       (snd (GetSecretKeyLocked collab_synced disk_sample env_sample
               keyrings_new ska_synced_only)) = true.
Proof.
  destruct (GetSecretKeyLocked_gated collab_synced disk_sample env_sample
              keyrings_new ska_synced_only) as (Hd & Hs & _).
  split; [exact (Hd eq_refl)|exact (Hs eq_refl)].
Defined.

Lemma GetSecretKeyLocked_local_first_witness :
  fst (fst (GetSecretKeyLocked collab_synced disk_sample env_sample
              keyrings_new ska_search_only))
    = mkLocked (Some 8) "" None
  /\ none_of synced_event
       (snd (GetSecretKeyLocked collab_synced disk_sample env_sample
               keyrings_new ska_search_only)) = true.
Proof.
  exact (GetSecretKeyLocked_local_first collab_synced disk_sample env_sample
           keyrings_new ska_search_only "alice" 8 eq_refl eq_refl).
Defined.

Lemma GetSecretKeyLocked_keyring_unavailable_witness :
  snd (fst (fst (LoadSKBKeyring disk_sample env_sample keyrings_new "bob")))
    = Some (ErrOther "file is locked")
  /\ fst (fst (GetSecretKeyLocked collab_synced disk_sample env_sample
                 keyrings_new ska_all_bob))
     = mkLocked (Some 99) "your Keybase.io passphrase" None.
Proof.
  split; [reflexivity|].
  destruct (GetSecretKeyLocked_keyring_unavailable collab_synced disk_sample
              env_sample keyrings_new ska_all_bob "bob" eq_refl)
    as (H & _).
  - left. vm_compute. discriminate.
  - exact H.
Defined.

Lemma GetSecretKeyLocked_search_after_device_witness :
  fst (fst (GetSecretKeyLocked collab_synced disk_sample env_sample
              keyrings_new ska_search_only))
    = mkLocked (Some 8) "" None
  /\ In EvSearchLocal
       (snd (GetSecretKeyLocked collab_synced disk_sample env_sample
               keyrings_new ska_search_only)).
Proof.
  destruct (GetSecretKeyLocked_search_after_device collab_synced disk_sample
              env_sample keyrings_new ska_search_only "alice"
              (mkSKBKeyringFile "/keys/alice.skb" [7; 8]) 1 8)
    as (Hr & Hi & _); try reflexivity.
  split; [exact Hr|exact Hi].
Defined.

Lemma GetSecretKey_prompts_iff_found_witness :
  fst (fst (fst (GetSecretKey collab_unsynced unlock_sample disk_sample
                   env_sample keyrings_new ska_synced_only)))
    = (None, Some NoSecretKeyError)
  /\ snd (fst (fst (GetSecretKey collab_unsynced unlock_sample disk_sample
                      env_sample keyrings_new ska_synced_only))) = None
  /\ snd (fst (fst (GetSecretKey collab_synced unlock_sample disk_sample
                      env_sample keyrings_new ska_all_bob)))
     = Some (mkPrompt 99 "decrypt" "your Keybase.io passphrase").
Proof.
  destruct (proj1 (GetSecretKey_prompts_iff_found collab_unsynced
                     unlock_sample disk_sample env_sample keyrings_new
                     ska_synced_only) NoSecretKeyError eq_refl) as [H1 H2].
  split; [exact H1|]. split; [exact H2|].
  destruct (proj1 (proj2 (GetSecretKey_prompts_iff_found collab_synced
                            unlock_sample disk_sample env_sample keyrings_new
                            ska_all_bob)) eq_refl)
    as (skb & Hr & Hp & _).
  rewrite Hp. vm_compute in Hr. injection Hr as <-. reflexivity.
Defined.

Lemma WriteTo_in_order_witness :
  KeyringFile_WriteTo serialize_sample ring_collision []
    = (Fingerprint pk_alice ++ Fingerprint pk_other, None)
  /\ KeyringFile_WriteTo serialize_sample ring_headless []
     = (Fingerprint pk_other, Some (ErrOther "no primary key")).
Proof.
  split.
  - rewrite (proj1 (WriteTo_in_order serialize_sample ring_collision [])).
    + vm_compute. reflexivity.
    + intros e He. apply elem_of_cons in He as [->|He]; [reflexivity|].
      apply elem_of_cons in He as [->|He]; [reflexivity|].
      apply elem_of_nil in He. destruct He.
  - rewrite (proj2 (WriteTo_in_order serialize_sample ring_headless [])
               [ent_other] (mkEntity None None []) [ent_alice]
               (ErrOther "no primary key")).
    + vm_compute. reflexivity.
    + reflexivity.
    + intros e He. apply elem_of_cons in He as [->|He]; [reflexivity|].
      apply elem_of_nil in He. destruct He.
    + reflexivity.
Defined.

Lemma LoadSKBKeyring_hit_is_stable_witness :
  LoadSKBKeyring disk_sample env_sample keyrings_after_alice "alice"
  = ((Some (mkSKBKeyringFile "/keys/alice.skb" [7; 8]), None),
     keyrings_after_alice, [EvLock; EvMapRead "alice"; EvUnlock]).
Proof.
  destruct (LoadSKBKeyring_hit_is_stable disk_sample env_sample keyrings_new
              "alice" eq_refl) as (f & Hf & Hagain).
  vm_compute in Hf. injection Hf as <-.
  unfold keyrings_after_alice. exact (Hagain nat disk_sample env_sample).
Defined.

Lemma keyrings_after_carol_evolved :
  evolves keyrings_after_alice keyrings_after_carol.
Proof. do 2 apply evolves_LoadSKBKeyring. apply evolves_refl. Qed.

Lemma cache_entries_persist_witness :
  cached keyrings_after_carol "alice"
  = Some (mkSKBKeyringFile "/keys/alice.skb" [7; 8]).
Proof.
  exact (proj1 (cache_entries_persist keyrings_after_alice
                  keyrings_after_carol "alice"
                  (mkSKBKeyringFile "/keys/alice.skb" [7; 8])
                  keyrings_after_carol_evolved eq_refl)).
Defined.

Lemma GetSecretKeyLocked_outcomes_witness :
  fst (fst (GetSecretKeyLocked collab_synced disk_sample env_sample
              keyrings_new ska_all))
    = mkLocked (Some 7) "" None
  /\ fst (fst (GetSecretKeyLocked collab_unsynced disk_sample env_sample
                 keyrings_new ska_synced_only))
     = mkLocked None "" (Some NoSecretKeyError).
Proof.
  split.
  - exact (proj1 (GetSecretKeyLocked_outcomes collab_synced disk_sample
                    env_sample keyrings_new ska_all "alice" eq_refl)
             7 eq_refl).
  - destruct (GetSecretKeyLocked_outcomes collab_unsynced disk_sample
                env_sample keyrings_new ska_synced_only "alice" eq_refl)
      as (_ & _ & _ & _ & H & _).
    exact (H eq_refl eq_refl eq_refl).
Defined.

Lemma GetSecretKeyLocked_provenance_witness :
  which (fst (fst (GetSecretKeyLocked collab_synced disk_sample env_sample
                     keyrings_new ska_all_bob)))
    = "your Keybase.io passphrase"
  /\ which (fst (fst (GetSecretKeyLocked collab_synced disk_sample env_sample
                        keyrings_new ska_all)))
     = "".
Proof.
  split.
  - apply (proj1 (GetSecretKeyLocked_provenance collab_synced disk_sample
                    env_sample keyrings_new ska_all_bob "bob" eq_refl)).
    split; [reflexivity|]. split; [reflexivity|]. exists 99. reflexivity.
  - apply (proj1 (proj2 (GetSecretKeyLocked_provenance collab_synced
                           disk_sample env_sample keyrings_new ska_all
                           "alice" eq_refl))).
    intros H.
    apply (proj1 (GetSecretKeyLocked_provenance collab_synced disk_sample
                    env_sample keyrings_new ska_all "alice" eq_refl)) in H.
    destruct H as (H & _). discriminate H.
Defined.
